(** * disci: the interaction handler and its REST helper

    A shallow embedding of the TypeScript sources of the [disci] package:
    the two variants of [InteractionHandler] (the verifying one, with
    [handleRequest], and the one driven by an [AbortSignal]) and the [Rest]
    client of [utils/REST.ts].

    JavaScript values that are objects used as maps are [gmap]s, exceptions
    and promise settlements are explicit sums, and everything that mutates
    (the handler, the promise returned by [processRequest], the pending
    timer, the abort signal, the Interaction object) lives in one [World]
    record that is passed through the code. *)

From Stdlib Require Import ZArith Lia String Ascii.
From stdpp Require Import base option list gmap strings pretty.

Local Open Scope Z_scope.
Local Open Scope string_scope.

(** ** JavaScript prelude *)

(** A thrown value or a rejection reason: an Error object of the package,
    of the platform or of foreign code, a plain string, any other value
    that is no Error object, and the error that an [EventEmitter] wraps
    such a value in when nobody listens for the error event. *)
Inductive Exn : Type :=
| DisciValidationError (msg : string)
| DisciParseError (msg : string)
| JsError (msg : string)
| JsTypeError (msg : string)
| StringReason (s : string)
| ForeignError (tag : nat)
| ForeignValue (tag : nat)
| ErrUnhandledError (context : Exn).

(** [e instanceof Error]. *)
Definition is_Error (e : Exn) : bool :=
  match e with
  | StringReason _ | ForeignValue _ => false
  | _ => true
  end.

(** The result of a synchronous call: it throws or it returns. *)
Inductive Call (A : Type) : Type :=
| Threw (e : Exn)
| Returned (a : A).
Arguments Threw {A} e.
Arguments Returned {A} a.

(** A settled promise. *)
Inductive Settled (A : Type) : Type :=
| Fulfilled (a : A)
| Rejected (e : Exn).
Arguments Fulfilled {A} a.
Arguments Rejected {A} e.

(** A promise: pending, or settled for good. *)
Inductive Promise (A : Type) : Type :=
| Pending
| Done (s : Settled A).
Arguments Pending {A}.
Arguments Done {A} s.

(** The [resolve] and [reject] functions handed to a promise executor: the
    first call settles the promise, every later call does nothing. *)
Definition settle {A : Type} (s : Settled A) (p : Promise A) : Promise A :=
  match p with
  | Pending => Done s
  | Done _ => p
  end.

Definition is_pending {A : Type} (p : Promise A) : bool :=
  match p with
  | Pending => true
  | Done _ => false
  end.

(** Modelled from the spec: [tryAndValue] of [utils/helpers], which is not in
    the sources.  It runs a thunk and yields its value, or nothing when the
    thunk throws. *)
Definition tryAndValue {A : Type} (c : Call A) : option A :=
  match c with
  | Returned a => Some a
  | Threw _ => None
  end.

(** ** The REST client ([utils/REST.ts]) *)

Module REST.

Record RESTClientOptions : Type := {
  token : option string;
  authPrefix_opt : option string;
  rootUrl_opt : option string
}.

Record RESTCommonOptions (Json : Type) : Type := {
  headers : option (gmap string string);
  body : option Json;
  query : option (list (string * string))
}.
Arguments headers {Json} _.
Arguments body {Json} _.
Arguments query {Json} _.

Record Rest : Type := {
  authPrefix : string;
  authToken : string;
  rootUrl : string
}.

(** The second argument of [fetch]. *)
Record RequestInit : Type := {
  method : string;
  init_headers : gmap string string;
  init_body : option string
}.

(** What [makeRequest] reads of the [Response] that [fetch] yields. *)
Record Response (Json Bytes : Type) : Type := {
  ok : bool;
  status : Z;
  statusText : string;
  content_type : option string;
  json : Settled Json;
  arrayBuffer : Settled Bytes
}.
Arguments ok {Json Bytes} _.
Arguments status {Json Bytes} _.
Arguments statusText {Json Bytes} _.
Arguments content_type {Json Bytes} _.
Arguments json {Json Bytes} _.
Arguments arrayBuffer {Json Bytes} _.

(** How the promise of [makeRequest] settles. *)
Inductive RestResult (Json Bytes : Type) : Type :=
| RestJson (j : Json)
| RestBuffer (b : Bytes)
| DisciRestError (msg : string) (cause : option Json)
| RestRejected (e : Exn).
Arguments RestJson {Json Bytes} j.
Arguments RestBuffer {Json Bytes} b.
Arguments DisciRestError {Json Bytes} msg cause.
Arguments RestRejected {Json Bytes} e.

Definition UserAgent : string :=
  "DiscordBot (https://github.com/typicalninja493/disci, 0.0.1)".

Definition startsWith (s p : string) : bool := String.prefix p s.

Definition endsWith (s p : string) : bool :=
  let n := String.length s in
  let k := String.length p in
  (k <=? n)%nat && String.eqb (String.substring (n - k) k s) p.

Definition includes (s p : string) : bool :=
  match String.index 0 p s with
  | Some _ => true
  | None => false
  end.

(** [x || d] on an optional string: the empty string is falsy. *)
Definition or_else (x : option string) (d : string) : string :=
  match x with
  | Some s => if String.eqb s "" then d else s
  | None => d
  end.

Section Client.

Variables Json Bytes : Type.
(** [URLS.DiscordApi] of [utils/constants], which is not in the sources. *)
Variable DiscordApi : string.
(** The platform functions the client calls. *)
(** [JSON.stringify] throws on a value it cannot serialize (a cyclic
    object, a BigInt); of [undefined] it makes [undefined]. *)
Variable JSON_stringify : option Json -> Call (option string).
Variable URLSearchParams_toString : list (string * string) -> string.
Variable fetch : string -> RequestInit -> Settled (Response Json Bytes).

Definition constructor (_opts : RESTClientOptions) : Rest :=
  {| authPrefix := or_else (authPrefix_opt _opts) "Bot";
     authToken := or_else (token _opts) "";
     rootUrl :=
       match rootUrl_opt _opts with
       | Some r =>
           if String.eqb r "" then DiscordApi
           else if endsWith r "/"
                then String.substring 0 (String.length r - 1) r
                else r
       | None => DiscordApi
       end |}.

Definition setToken (token : string) (this : Rest) : Call Rest :=
  if String.eqb token ""
  then Threw (JsTypeError "Token must be a valid string, received string")
  else Returned {| authPrefix := authPrefix this;
                   authToken := token;
                   rootUrl := rootUrl this |}.

Definition authHeader (this : Rest) : string :=
  authPrefix this +:+ " " +:+ authToken this.

Definition getUrl (this : Rest) (path : string)
    (queryParams : option (list (string * string))) : string :=
  let url :=
    if startsWith path "/" then rootUrl this +:+ path
    else if startsWith path "https://" || startsWith path "http://" then path
    else rootUrl this +:+ "/" +:+ path in
  match queryParams with
  | Some q => url +:+ "?" +:+ URLSearchParams_toString q
  | None => url
  end.

(** The request [makeRequest] hands to [fetch]: the URL and the init object,
    [text] being what [JSON.stringify] has made of the body.  The spread
    [...opts?.headers] comes last, so the caller's headers win. *)
Definition issued (this : Rest) (method : string) (path : string)
    (opts : option (RESTCommonOptions Json)) (text : option string)
    : string * RequestInit :=
  (getUrl this path (opts ≫= query),
   {| method := method;
      init_headers :=
        default ∅ (opts ≫= headers)
        ∪ <["User-Agent" := UserAgent]>
            (<["Authorization" := authHeader this]>
               (<["Content-Type" := "application/json"]> ∅));
      init_body := text |}).

(** The body of [makeRequest] from the call to [fetch] on: how the promise
    it returns settles. *)
Definition settles (method : string) (path : string)
    (call : string * RequestInit) : RestResult Json Bytes :=
  match fetch (fst call) (snd call) with
  | Rejected e => RestRejected e
  | Fulfilled req =>
      if negb (ok req) then
        (* [await tryAndValue(() => req.json())]: the thunk returns the
           promise, and awaiting a rejected one throws out of makeRequest *)
        match tryAndValue (Returned (json req)) with
        | Some (Rejected e) => RestRejected e
        | Some (Fulfilled errors) =>
            DisciRestError
              ("Request to [" +:+ method +:+ ":" +:+ path +:+ "] returned "
               +:+ pretty (status req) +:+ " [" +:+ statusText req +:+ "]")
              (Some errors)
        | None =>
            DisciRestError
              ("Request to [" +:+ method +:+ ":" +:+ path +:+ "] returned "
               +:+ pretty (status req) +:+ " [" +:+ statusText req +:+ "]")
              None
        end
      else
        match content_type req with
        | Some contentType =>
            if negb (String.eqb contentType "")
               && includes contentType "application/json"
            then match json req with
                 | Fulfilled j => RestJson j
                 | Rejected e => RestRejected e
                 end
            else match arrayBuffer req with
                 | Fulfilled b => RestBuffer b
                 | Rejected e => RestRejected e
                 end
        | None =>
            match arrayBuffer req with
            | Fulfilled b => RestBuffer b
            | Rejected e => RestRejected e
            end
        end
  end.

(** [makeRequest]: how its promise settles, together with the calls to
    [fetch] it made.  The arguments of [fetch] are computed first: when
    [JSON.stringify] throws, the promise of this async method is rejected
    with what it threw and [fetch] is not called. *)
Definition makeRequest (this : Rest) (method : string) (path : string)
    (opts : option (RESTCommonOptions Json))
    : RestResult Json Bytes * list (string * RequestInit) :=
  match JSON_stringify (opts ≫= body) with
  | Threw e => (RestRejected e, [])
  | Returned text =>
      let call := issued this method path opts text in
      (settles method path call, [call])
  end.

Definition get (this : Rest) (path : string)
    (opts : option (RESTCommonOptions Json))
    : RestResult Json Bytes * list (string * RequestInit) :=
  makeRequest this "GET" path opts.

Definition post (this : Rest) (path : string)
    (opts : option (RESTCommonOptions Json))
    : RestResult Json Bytes * list (string * RequestInit) :=
  makeRequest this "GET" path opts.

Definition put (this : Rest) (path : string)
    (opts : option (RESTCommonOptions Json))
    : RestResult Json Bytes * list (string * RequestInit) :=
  makeRequest this "put" path opts.

Definition patch (this : Rest) (path : string)
    (opts : option (RESTCommonOptions Json))
    : RestResult Json Bytes * list (string * RequestInit) :=
  makeRequest this "GET" path opts.

Definition delete (this : Rest) (path : string)
    (opts : option (RESTCommonOptions Json))
    : RestResult Json Bytes * list (string * RequestInit) :=
  makeRequest this "DELETE" path opts.

End Client.

(** The HTTP verbs of a list of [fetch] calls. *)
Definition verbs (calls : list (string * RequestInit)) : list string :=
  map (fun c => method (snd c)) calls.

End REST.

(** ** Requests, responses and interactions *)

(** Modelled from the spec: [IRequest] of [utils/request], which is not in
    the sources: the canonical shape [{headers, body}] of a request.  A
    header that is absent reads as [undefined]; so does an absent body. *)
Record IRequest : Type := {
  headers : gmap string string;
  body : option string
}.

(** [APIInteractionResponse] of discord-api-types, as far as the handlers
    can tell one response from another: the response type, its data, kept
    as text, and what [JSON.stringify] throws on it, if anything (it
    throws on a cyclic object and on a BigInt). *)
Record APIInteractionResponse : Type := {
  resp_type : Z;
  resp_data : option string;
  stringify_throws : option Exn
}.

(** [InteractionType] and [InteractionResponseType] of discord-api-types. *)
Module InteractionType.
Definition Ping : Z := 1.
Definition ApplicationCommand : Z := 2.
Definition MessageComponent : Z := 3.
Definition ApplicationCommandAutocomplete : Z := 4.
Definition ModalSubmit : Z := 5.
End InteractionType.

Module InteractionResponseType.
Definition Pong : Z := 1.
Definition DeferredChannelMessageWithSource : Z := 5.
End InteractionResponseType.

(** What the handlers read of a parsed [APIInteraction]: its id; its
    [type] when that is an integer ([None] for any other value, and when
    the parsed value has none); and the text a template literal prints for
    its [type], whatever value that is. *)
Record APIInteraction : Type := {
  raw_id : string;
  raw_type : option Z;
  raw_type_text : string
}.

(** [EResponseErrorMessages] of [utils/constants]. *)
Inductive EResponseErrorMessages : Type :=
| Unauthorized
| InternalError
| TimedOut
| NotSupported.

Inductive ResponseData : Type :=
| ErrorMessage (m : EResponseErrorMessages)
| ApiResponse (r : APIInteractionResponse).

(** Modelled from the spec: [IResponse] and [toResponse] of [utils/request],
    which are not in the sources: the inverse of the normalizer,
    [denormalize(responsePayload, statusCode) -> transportResponse].  The
    response keeps the payload and the status code it was built with
    ([None] where the caller passes no status). *)
Record IResponse : Type := {
  responseData : ResponseData;
  statusCode : option Z
}.

Definition toResponse (data : ResponseData) (status : option Z) : IResponse :=
  {| responseData := data; statusCode := status |}.

(** The key that [crypto.subtle.importKey] yields, an opaque handle. *)
Inductive CryptoKey : Type :=
| ImportedKey (handle : nat).

(** The messages given to [debug], by the place that builds them. *)
Inductive DebugMsg : Type :=
| VerifyingFailed (vErr : Exn)
| ProcessingFailed (pErr : Exn)
| Resolving (response : APIInteractionResponse)
| TimedOutId (id : string)
| AutoDeferred (id : string)
| UnsupportedType (type_text : string).

(** ** Option objects and the constructors *)

(** A number, as far as the handlers can tell one from another: an
    integer, a finite number that is no integer (known by its integral
    part, [Math.trunc]), NaN, or an infinity. *)
Inductive JsNumber : Type :=
| Int (n : Z)
| NonInt (integral : Z)
| NaN
| Infinity (negative : bool).

Coercion Int : Z >-> JsNumber.

(** A function found in the options.  The handlers call such a function at
    two places: as [verifyRequest], with the request, and as [debug], with
    a message.  The function is known by what it does there.  Called with
    a request it throws, or it returns: a value that is no promise
    ([None]), or a promise, known by how it settles (a promise that is
    fulfilled is read for its truthiness only).  Called with a message it
    throws or returns. *)
Record JsFunction : Type := {
  call_with_request : IRequest -> Call (option (Settled bool));
  call_with_message : DebugMsg -> Call unit
}.

(** A property of an options object: [undefined], [null], a flag, a number,
    a string, a function, or an object (a REST adapter of the user, or the
    options of the REST client). *)
Inductive OptValue : Type :=
| VUndefined
| VNull
| VBool (b : bool)
| VNum (x : JsNumber)
| VStr (s : string)
| VFunction (f : JsFunction)
| VRestAdapter (adapter : nat)
| VRestOptions (o : REST.RESTClientOptions).

Abbreviation Options := (gmap string OptValue).

(** Reading a property: an absent one is [undefined]. *)
Definition getprop (o : Options) (k : string) : OptValue :=
  default VUndefined (o !! k).

(** JavaScript truthiness, as [!x] and [if (x)] test it. *)
Definition truthy (v : OptValue) : bool :=
  match v with
  | VUndefined | VNull => false
  | VBool b => b
  | VNum (Int n) => negb (Z.eqb n 0)
  | VNum NaN => false
  | VNum (NonInt _) | VNum (Infinity _) => true
  | VStr s => negb (String.eqb s "")
  | VFunction _ | VRestAdapter _ | VRestOptions _ => true
  end.

(** Objects live in a heap and are held by reference. *)
Abbreviation Heap := (gmap positive Options).

(** The module-level object [defaultOptions] of [utils/constants]: one
    object, shared by everything that imports it. *)
Definition defaultOptions : positive := 1%positive.

(** A heap that holds the defaults and nothing else. *)
Definition boot (defaults : Options) : Heap := {[ defaultOptions := defaults ]}.

(** [Object.assign(target, ...sources)]: copies the properties of each source
    into the target object, later sources winning, and returns the target. *)
Definition Object_assign (target : positive) (sources : list Options)
    (σ : Heap) : Heap :=
  <[ target := foldl (fun t s => s ∪ t) (σ !!! target) sources ]> σ.

(** The configuration a handler observes: what its [options] reference
    points to now. *)
Definition observed (σ : Heap) (options : positive) : Options := σ !!! options.

(** ** The platform *)

(** What the handlers take from the host and from files of the package
    that are not in the sources: the request adapter [ToRequest] of
    [utils/request] (it returns the canonical request or throws),
    [JSON.parse] (it throws, or returns the parsed interaction, [None]
    standing for a falsy value such as [null]), the number a string is
    converted to, [crypto.subtle], and the header names
    [DiscordVerificationHeaders] of [utils/constants]. *)
Class Host : Type := {
  RawRequest : Type;
  ToRequest : RawRequest -> Call IRequest;
  JSON_parse : string -> Call (option APIInteraction);
  Number_of_string : string -> JsNumber;
  importKey : string -> Settled CryptoKey;
  subtle_verify : CryptoKey -> string -> string -> Call (Settled bool);
  DiscordVerificationHeaders_TimeStamp : string;
  DiscordVerificationHeaders_Signature : string
}.

(** ** The world of one request *)

(** What the promise returned by [processRequest] is resolved with: a
    transport response in the verifying variant, the bare payload in the
    signalled one. *)
Inductive Reply : Type :=
| Transport (r : IResponse)
| Payload (p : APIInteractionResponse).

(** The closures the handlers install as an Interaction's callback. *)
Inductive Callback : Type :=
| ResolveTransport
| ResolvePayload
| ThrowTimedOut.

(** Modelled from the spec: the Interaction object of [structures], which
    is not in the sources.  The fields are the ones the handlers use:
    [id], the interaction type, the flags [responded] and [timeout], and
    the callback set by [useCallback]. *)
Record Interaction : Type := {
  id : string;
  type : Z;
  responded : bool;
  timeout : bool;
  callback : option Callback
}.

(** What a run leaves behind, oldest first: the messages printed by
    [console.debug] and those handed to the debug function, the bodies
    given to [JSON.parse], the Interactions created, the events emitted,
    the alarm set and run, the answers an Interaction refused, the errors
    its callback threw at the subscriber, and the errors thrown out of the
    alarm, which nothing catches. *)
Inductive Effect : Type :=
| ConsoleDebug (msg : DebugMsg)
| SinkDebug (msg : DebugMsg)
| Parsed (body : option string)
| Instantiated (id : string)
| Emitted (event : string)
| AlarmSet (due : Z)
| AlarmRan
| DoubleResponse (id : string)
| CallbackThrew (id : string) (e : Exn)
| Uncaught (e : Exn).

(** An [AbortSignal]: [aborted] holds the reason once the signal has fired;
    [listening] says whether an abort listener is registered. *)
Record AbortSignal : Type := {
  aborted : option Exn;
  listening : bool
}.

(** The listeners registered on the handler, an [EventEmitter]: the
    responses the interactionCreate listeners give while [emit] runs them,
    and whether an error listener is registered. *)
Record Listeners : Type := {
  onInteractionCreate : list APIInteractionResponse;
  onError : bool
}.

Record World : Type := {
  this_options : Options;
  this_publicKey : option CryptoKey;
  listeners : Listeners;
  clock : Z;
  response : Promise Reply;
  settledAt : option Z;
  timer : option Z;
  signal : option AbortSignal;
  interaction : option Interaction;
  trace : list Effect
}.

Definition with_publicKey (k : option CryptoKey) (w : World) : World :=
  {| this_options := this_options w; this_publicKey := k;
     listeners := listeners w; clock := clock w; response := response w;
     settledAt := settledAt w; timer := timer w; signal := signal w;
     interaction := interaction w; trace := trace w |}.

Definition with_clock (t : Z) (w : World) : World :=
  {| this_options := this_options w; this_publicKey := this_publicKey w;
     listeners := listeners w; clock := t; response := response w;
     settledAt := settledAt w; timer := timer w; signal := signal w;
     interaction := interaction w; trace := trace w |}.

Definition with_response (p : Promise Reply) (at_ : option Z) (w : World)
    : World :=
  {| this_options := this_options w; this_publicKey := this_publicKey w;
     listeners := listeners w; clock := clock w; response := p;
     settledAt := at_; timer := timer w; signal := signal w;
     interaction := interaction w; trace := trace w |}.

Definition with_timer (t : option Z) (w : World) : World :=
  {| this_options := this_options w; this_publicKey := this_publicKey w;
     listeners := listeners w; clock := clock w; response := response w;
     settledAt := settledAt w; timer := t; signal := signal w;
     interaction := interaction w; trace := trace w |}.

Definition with_signal (s : option AbortSignal) (w : World) : World :=
  {| this_options := this_options w; this_publicKey := this_publicKey w;
     listeners := listeners w; clock := clock w; response := response w;
     settledAt := settledAt w; timer := timer w; signal := s;
     interaction := interaction w; trace := trace w |}.

Definition with_interaction (i : option Interaction) (w : World) : World :=
  {| this_options := this_options w; this_publicKey := this_publicKey w;
     listeners := listeners w; clock := clock w; response := response w;
     settledAt := settledAt w; timer := timer w; signal := signal w;
     interaction := i; trace := trace w |}.

Definition log (e : Effect) (w : World) : World :=
  {| this_options := this_options w; this_publicKey := this_publicKey w;
     listeners := listeners w; clock := clock w; response := response w;
     settledAt := settledAt w; timer := timer w; signal := signal w;
     interaction := interaction w; trace := trace w ++ [e] |}.

(** The world a request starts in: nothing pending yet. *)
Definition start (opts : Options) (k : option CryptoKey) (l : Listeners)
    (now : Z) (s : option AbortSignal) : World :=
  {| this_options := opts; this_publicKey := k; listeners := l;
     clock := now; response := Pending; settledAt := None; timer := None;
     signal := s; interaction := None; trace := [] |}.

(** [resolve] and [reject] of the promise [processRequest] returns.  The
    time of the settlement is kept beside it. *)
Definition resolve (r : Reply) (w : World) : World :=
  if is_pending (response w)
  then with_response (settle (Fulfilled r) (response w)) (Some (clock w)) w
  else w.

Definition reject (e : Exn) (w : World) : World :=
  if is_pending (response w)
  then with_response (settle (Rejected e) (response w)) (Some (clock w)) w
  else w.

(** The private method [debug] (the same in both variants).  A debug
    option that is a function is called with the message, and what it
    throws is thrown by [debug]. *)
Definition debug (msg : DebugMsg) (w : World) : Call unit * World :=
  let d := getprop (this_options w) "debug" in
  if truthy d then
    match d with
    | VFunction f => (call_with_message f msg, log (SinkDebug msg) w)
    | _ => (Returned tt, log (ConsoleDebug msg) w)
    end
  else (Returned tt, w).

(** The message of the callbacks is built with [JSON.stringify(response)],
    whether debugging is on or not. *)
Definition debugResolving (response : APIInteractionResponse) (w : World)
    : Call unit * World :=
  match stringify_throws response with
  | Some e => (Threw e, w)
  | None => debug (Resolving response) w
  end.

(** The callback of the verifying variant (part_001, lines 99-102). *)
Definition resolveTransport (response : APIInteractionResponse) (w : World)
    : Call unit * World :=
  match debugResolving response w with
  | (Threw e, w) => (Threw e, w)
  | (Returned _, w) =>
      (Returned tt,
       resolve (Transport (toResponse (ApiResponse response) None)) w)
  end.

(** The callback of the signalled variant (part_002, lines 106-109). *)
Definition resolvePayload (response : APIInteractionResponse) (w : World)
    : Call unit * World :=
  match debugResolving response w with
  | (Threw e, w) => (Threw e, w)
  | (Returned _, w) => (Returned tt, resolve (Payload response) w)
  end.

(** The callback the abort listener installs (part_002, lines 113-115). *)
Definition throwTimedOut (w : World) : Call unit * World :=
  (Threw (JsError "Interaction timed out (via abort)"), w).

Definition invoke (cb : option Callback) (response : APIInteractionResponse)
    (w : World) : Call unit * World :=
  match cb with
  | Some ResolveTransport => resolveTransport response w
  | Some ResolvePayload => resolvePayload response w
  | Some ThrowTimedOut => throwTimedOut w
  | None => (Threw (JsTypeError "this.callback is not a function"), w)
  end.

(** ** The Interaction object *)

Module InteractionObject.

Definition useCallback (fn : Callback) (i : Interaction) : Interaction :=
  {| id := id i; type := type i; responded := responded i;
     timeout := timeout i; callback := Some fn |}.

Definition set_responded (i : Interaction) : Interaction :=
  {| id := id i; type := type i; responded := true;
     timeout := timeout i; callback := callback i |}.

Definition set_timeout (i : Interaction) : Interaction :=
  {| id := id i; type := type i; responded := responded i;
     timeout := true; callback := callback i |}.

(** Modelled from the spec: autocomplete-kind interactions are the ones of
    type [ApplicationCommandAutocomplete]. *)
Definition isAutoComplete (i : Interaction) : bool :=
  Z.eqb (type i) InteractionType.ApplicationCommandAutocomplete.

(** Modelled from the spec: the operation [resolve(responsePayload)] of the
    Interaction state machine.  It is valid only from Pending (neither
    [responded] nor [timeout]): then the callback is run with the payload
    and the interaction becomes Responded.  From any other state the call
    is refused as a DoubleResponse and changes nothing.  A callback that
    throws leaves the interaction as it was; the error goes to the
    subscriber. *)
Definition respond (payload : APIInteractionResponse) (w : World) : World :=
  match interaction w with
  | None => w
  | Some i =>
      if responded i || timeout i then log (DoubleResponse (id i)) w
      else
        match invoke (callback i) payload w with
        | (Returned _, w') => with_interaction (Some (set_responded i)) w'
        | (Threw e, w') => log (CallbackThrew (id i) e) w'
        end
  end.

(** Modelled from the spec: the deferred acknowledgement is an ordinary
    resolution whose payload has the deferred response type. *)
Definition deferred : APIInteractionResponse :=
  {| resp_type := InteractionResponseType.DeferredChannelMessageWithSource;
     resp_data := None;
     stringify_throws := None |}.

Definition deferResponse (w : World) : World := respond deferred w.

End InteractionObject.

(** Modelled from the spec: [InteractionFactory.from] of [utils/Factories],
    which is not in the sources.  A Ping needs no state machine and yields
    no object; the kinds routed to the state machine yield a Pending
    Interaction; an unrecognized kind yields none. *)
Definition InteractionFactory_from (raw : APIInteraction) : option Interaction :=
  match raw_type raw with
  | Some t =>
      if Z.eqb t InteractionType.ApplicationCommand
         || Z.eqb t InteractionType.MessageComponent
         || Z.eqb t InteractionType.ApplicationCommandAutocomplete
         || Z.eqb t InteractionType.ModalSubmit
      then Some {| id := raw_id raw; type := t; responded := false;
                   timeout := false; callback := None |}
      else None
  | None => None
  end.

(** [this.emit('interactionCreate', interaction)]: the listeners run at
    once, and whatever they answer goes through the Interaction.  The
    listeners are taken to return: one that throws is outside this model. *)
Definition emit_interactionCreate (w : World) : World :=
  foldl (fun w p => InteractionObject.respond p w)
        (log (Emitted "interactionCreate") w)
        (onInteractionCreate (listeners w)).

(** ** Timers, signals and the event loop *)

(** The number a value is converted to, as in [after *= 1].  An object
    or a function without a primitive value of its own converts to NaN. *)
Definition ToNumber {host : Host} (v : OptValue) : JsNumber :=
  match v with
  | VUndefined => NaN
  | VNull => Int 0
  | VBool b => Int (if b then 1 else 0)
  | VNum x => x
  | VStr s => Number_of_string s
  | VFunction _ | VRestAdapter _ | VRestOptions _ => NaN
  end.

(** The longest delay a timer of Node takes: 2^31 - 1 milliseconds. *)
Definition TIMEOUT_MAX : Z := 2147483647.

(** The delay a timer of Node runs with.  A delay that is no number from 1
    to [TIMEOUT_MAX] is replaced by 1; of any other delay the fraction of
    a millisecond is dropped. *)
Definition timer_delay (after : JsNumber) : Z :=
  match after with
  | Int n => if Z.leb 1 n && Z.leb n TIMEOUT_MAX then n else 1
  | NonInt t => if Z.leb 1 t && Z.ltb t TIMEOUT_MAX then t else 1
  | NaN | Infinity _ => 1
  end.

(** [setTimeout(alarm, after)] of Node: a one-shot alarm that may run once
    the clock of the event loop has reached its due time. *)
Definition setTimeout {host : Host} (after : OptValue) (w : World) : World :=
  let due := clock w + timer_delay (ToNumber after) in
  log (AlarmSet due) (with_timer (Some due) w).

(** The alarm of the verifying variant (part_001, lines 105-118).  What
    [debug] throws here is thrown out of the alarm, past the assignment of
    the timeout flag and past [resolve]. *)
Definition timeoutAlarm (w : World) : World :=
  match interaction w with
  | Some i =>
      if negb (responded i) then
        match debug (TimedOutId (id i)) w with
        | (Threw e, w) => log (Uncaught e) w
        | (Returned _, w) =>
            if truthy (getprop (this_options w) "deferOnTimeout")
               && negb (InteractionObject.isAutoComplete i)
            then
              match debug (AutoDeferred (id i)) w with
              | (Threw e, w) => log (Uncaught e) w
              | (Returned _, w) => InteractionObject.deferResponse w
              end
            else
              resolve
                (Transport (toResponse (ErrorMessage TimedOut) (Some 504)))
                (with_interaction (Some (InteractionObject.set_timeout i)) w)
        end
      else w
  | None => w
  end.

(** The abort listener of the signalled variant (part_002, lines 112-117):
    [signal.reason] is read when the listener runs. *)
Definition abortListener (w : World) : World :=
  match interaction w, signal w ≫= aborted with
  | Some i, Some reason =>
      reject reason
        (with_interaction
           (Some (InteractionObject.useCallback ThrowTimedOut i)) w)
  | _, _ => w
  end.

(** What can happen after [processRequest] has returned its promise. *)
Inductive Event : Type :=
| Elapse (ms : nat)
| Alarm
| Respond (payload : APIInteractionResponse)
| Abort (reason : Exn).

Definition step (e : Event) (w : World) : World :=
  match e with
  | Elapse ms => with_clock (clock w + Z.of_nat ms) w
  | Alarm =>
      match timer w with
      | Some due =>
          if Z.leb due (clock w)
          then timeoutAlarm (log AlarmRan (with_timer None w))
          else w
      | None => w
      end
  | Respond payload => InteractionObject.respond payload w
  | Abort reason =>
      match signal w with
      | Some s =>
          match aborted s with
          | Some _ => w
          | None =>
              let w :=
                with_signal
                  (Some {| aborted := Some reason; listening := listening s |})
                  w in
              if listening s then abortListener w else w
          end
      | None => w
      end
  end.

Definition run (es : list Event) (w : World) : World :=
  foldl (fun w e => step e w) w es.

(** ** The verifying handler (part_001) *)

Module Verifying.

(** The handler object. *)
Record InteractionHandler : Type := {
  options : positive;
  rest : OptValue;
  publicKey : option CryptoKey
}.

(** [new InteractionHandler(options)]: the merge goes into a fresh object. *)
Definition constructor (opts : Options) (σ : Heap)
    : Call InteractionHandler * Heap :=
  let o := fresh (dom σ) in
  let σ1 := Object_assign o [σ !!! defaultOptions; opts] (<[ o := ∅ ]> σ) in
  if negb (truthy (getprop (σ1 !!! o) "publicKey"))
  then (Threw (DisciValidationError "Public key is required"), σ1)
  else (Returned {| options := o;
                    rest := getprop (σ1 !!! o) "restAdapter";
                    publicKey := None |}, σ1).

(** How the promise of [handleRequest] stands. *)
Inductive Handled : Type :=
| Rejects (e : Exn)
| Returns (r : Reply)
| Awaiting.

Section Methods.

Context {host : Host}.

(** [!x] on a string that may be [undefined]. *)
Definition missing (x : option string) : bool :=
  match x with
  | Some s => String.eqb s ""
  | None => true
  end.

(** [verifyRequest]: an async method, so everything it throws is a
    rejection of its promise.  [Buffer.from] needs a string key. *)
Definition verifyRequest (req : IRequest) (w : World) : Settled bool * World :=
  let imported :=
    match this_publicKey w with
    | Some k => (Fulfilled k, w)
    | None =>
        match getprop (this_options w) "publicKey" with
        | VStr hex =>
            match importKey hex with
            | Fulfilled k => (Fulfilled k, with_publicKey (Some k) w)
            | Rejected e => (Rejected e, w)
            end
        | _ => (Rejected (JsTypeError "The first argument must be of type string"), w)
        end
    end in
  match imported with
  | (Rejected e, w) => (Rejected e, w)
  | (Fulfilled k, w) =>
      let timestamp := headers req !! DiscordVerificationHeaders_TimeStamp in
      let signature := headers req !! DiscordVerificationHeaders_Signature in
      if missing timestamp || missing signature || missing (body req)
      then (Fulfilled false, w)
      else
        match subtle_verify k (default "" signature)
                (default "" timestamp +:+ default "" (body req)) with
        | Threw _ => (Fulfilled false, w)
        | Returned p => (p, w)
        end
  end.

(** [JSON.parse(req.body)]: an [undefined] body is no JSON text. *)
Definition parse_body (b : option string) : Call (option APIInteraction) :=
  match b with
  | Some s => JSON_parse s
  | None => Threw (JsError "SyntaxError: undefined is not valid JSON")
  end.

(** [processRequest]: the executor of the promise runs at once; the world
    it leaves holds the promise, the alarm and the Interaction. *)
Definition processRequest (req : IRequest) (w : World) : World :=
  let w := log (Parsed (body req)) w in
  match tryAndValue (parse_body (body req)) with
  | Some (Some rawInteraction) =>
      match InteractionFactory_from rawInteraction with
      | Some interaction =>
          let w := log (Instantiated (id interaction)) w in
          let w :=
            with_interaction
              (Some (InteractionObject.useCallback ResolveTransport interaction))
              w in
          let w := setTimeout (getprop (this_options w) "replyTimeout") w in
          emit_interactionCreate w
      | None =>
          if bool_decide (raw_type rawInteraction = Some InteractionType.Ping)
          then
            resolve
              (Transport
                 (toResponse
                    (ApiResponse {| resp_type := InteractionResponseType.Pong;
                                    resp_data := None;
                                    stringify_throws := None |}) None)) w
          else
            (* what the executor throws rejects the promise *)
            match debug (UnsupportedType (raw_type_text rawInteraction)) w with
            | (Threw e, w) => reject e w
            | (Returned _, w) =>
                resolve
                  (Transport (toResponse (ErrorMessage NotSupported) (Some 500)))
                  w
            end
      end
  | _ =>
      reject
        (DisciParseError "Failed to parse rawBody into a valid ApiInteraction")
        w
  end.

(** [verifyFn(receivedRequest)] (lines 61-62): the function configured as
    [verifyRequest] when there is one, the method otherwise.  The method is
    async: it never throws, and it returns a promise. *)
Definition verifyFn (req : IRequest) (w : World)
    : Call (option (Settled bool)) * World :=
  match getprop (this_options w) "verifyRequest" with
  | VFunction f => (call_with_request f req, w)
  | _ =>
      let '(verdict, w) := verifyRequest req w in
      (Returned (Some verdict), w)
  end.

(** [await verifyFn(receivedRequest).catch(...)] (lines 62-65): the call
    may throw, [.catch] is a method of promises only, and the handler
    given to [.catch] may throw in its turn. *)
Definition requestVerified (req : IRequest) (w : World) : Call bool * World :=
  match verifyFn req w with
  | (Threw e, w) => (Threw e, w)
  | (Returned None, w) =>
      (Threw (JsTypeError "verifyFn(...).catch is not a function"), w)
  | (Returned (Some (Fulfilled b)), w) => (Returned b, w)
  | (Returned (Some (Rejected vErr)), w) =>
      match debug (VerifyingFailed vErr) w with
      | (Threw e, w) => (Threw e, w)
      | (Returned _, w) => (Returned false, w)
      end
  end.

(** [this.emit('error', pErr)] with nobody listening throws: the error
    itself when it is an Error object, an error that wraps it otherwise. *)
Definition unhandled (pErr : Exn) : Exn :=
  if is_Error pErr then pErr else ErrUnhandledError pErr.

(** [handleRequest].  [later] is what happens while it awaits the promise
    of [processRequest]; the result is [Awaiting] when that promise is
    still pending afterwards.  Whatever is thrown outside the [try] rejects
    the promise of this async method, and so does what its [catch] block
    throws. *)
Definition handleRequest (req : RawRequest) (later : list Event) (w : World)
    : Handled * World :=
  match ToRequest req with
  | Threw e => (Rejects e, w)
  | Returned receivedRequest =>
      match requestVerified receivedRequest w with
      | (Threw e, w) => (Rejects e, w)
      | (Returned false, w) =>
          (Returns (Transport (toResponse (ErrorMessage Unauthorized) (Some 400))),
           w)
      | (Returned true, w) =>
          let w := run later (processRequest receivedRequest w) in
          match response w with
          | Pending => (Awaiting, w)
          | Done (Fulfilled r) => (Returns r, w)
          | Done (Rejected pErr) =>
              if onError (listeners w) then
                match debug (ProcessingFailed pErr) (log (Emitted "error") w) with
                | (Threw e, w) => (Rejects e, w)
                | (Returned _, w) =>
                    (Returns
                       (Transport
                          (toResponse (ErrorMessage InternalError) (Some 500))),
                     w)
                end
              else (Rejects (unhandled pErr), w)
          end
      end
  end.

End Methods.

End Verifying.

(** ** The signalled handler (part_002) *)

Module Signalled.

(** The handler object. *)
Record InteractionHandler : Type := {
  options : positive;
  api : REST.Rest
}.

(** The three properties [new Rest(_opts)] reads of its argument.  Reading
    a property of [undefined] or of [null] throws a [TypeError]; any other
    value that is not the options object has none of the three, and they
    read [undefined]. *)
Definition rest_options (v : OptValue) : Call REST.RESTClientOptions :=
  match v with
  | VUndefined =>
      Threw (JsTypeError "Cannot read properties of undefined (reading 'authPrefix')")
  | VNull =>
      Threw (JsTypeError "Cannot read properties of null (reading 'authPrefix')")
  | VRestOptions r => Returned r
  | _ => Returned {| REST.token := None; REST.authPrefix_opt := None;
                     REST.rootUrl_opt := None |}
  end.

(** [new InteractionHandler(options = {})]: the merge goes into
    [defaultOptions] itself, and [this.options] is that object; then
    [new Rest(this.options.rest)]. *)
Definition constructor (DiscordApi : string) (opts : Options) (σ : Heap)
    : Call InteractionHandler * Heap :=
  let σ1 := Object_assign defaultOptions [opts] σ in
  match rest_options (getprop (σ1 !!! defaultOptions) "rest") with
  | Returned r =>
      (Returned {| options := defaultOptions;
                   api := REST.constructor DiscordApi r |}, σ1)
  | Threw e => (Threw e, σ1)
  end.

(** The [body] argument: a string, or an object taken as the interaction. *)
Inductive Body : Type :=
| Text (s : string)
| Object (o : APIInteraction).

Section Methods.

Context {host : Host}.

(** [signal.addEventListener("abort", listener)]. *)
Definition addEventListener (w : World) : World :=
  match signal w with
  | Some s => with_signal (Some {| aborted := aborted s; listening := true |}) w
  | None => w
  end.

(** [processRequest(body, signal)]; the signal is the one of the world. *)
Definition processRequest (body : Body) (w : World) : World :=
  match signal w ≫= aborted with
  | Some reason => reject reason w
  | None =>
      (* [JSON.parse] is called on a string body only *)
      let w := match body with Text s => log (Parsed (Some s)) w | Object _ => w end in
      let parsed :=
        tryAndValue
          (match body with
           | Text s => JSON_parse s
           | Object o => Returned (Some o)
           end) in
      match parsed with
      | Some (Some rawInteraction) =>
          match InteractionFactory_from rawInteraction with
          | Some interaction =>
              let w := log (Instantiated (id interaction)) w in
              let w :=
                with_interaction
                  (Some (InteractionObject.useCallback ResolvePayload interaction))
                  w in
              let w := addEventListener w in
              emit_interactionCreate w
          | None =>
              if bool_decide (raw_type rawInteraction = Some InteractionType.Ping)
              then
                resolve
                  (Payload {| resp_type := InteractionResponseType.Pong;
                              resp_data := None;
                              stringify_throws := None |}) w
              else
                reject
                  (StringReason
                     ("UnsupportedInteraction: Unsupported Interaction of type "
                      +:+ raw_type_text rawInteraction +:+ " received"))
                  w
          end
      | _ =>
          reject
            (StringReason
               "ParseError: Failed to parse received interaction to a valid interaction")
            w
      end
  end.

End Methods.

End Signalled.

(** ** A host to run the handlers on *)

(** Modelled from the spec: the request adapter [ToRequest] of
    [utils/request], which is not in the sources.  It accepts two host
    shapes, a framework-style request object and a raw body with headers,
    and fails with a MalformedRequest error when headers or body cannot be
    extracted. *)
Inductive HostRequest : Type :=
| FrameworkRequest (req : IRequest)
| BodyAndHeaders (body : string) (headers : gmap string string)
| Unadaptable.

Definition adapt (r : HostRequest) : Call IRequest :=
  match r with
  | FrameworkRequest req => Returned req
  | BodyAndHeaders b h => Returned {| headers := h; body := Some b |}
  | Unadaptable => Threw (JsTypeError "MalformedRequest")
  end.

(** A stand-in for [JSON.parse], enough to run examples: three bodies are
    read as interactions, the text null as [null], anything else is no JSON. *)
Definition parse_sample (s : string) : Call (option APIInteraction) :=
  if String.eqb s "ping"
  then Returned (Some {| raw_id := "1"; raw_type := Some InteractionType.Ping;
                         raw_type_text := "1" |})
  else if String.eqb s "command"
  then Returned (Some {| raw_id := "2";
                         raw_type := Some InteractionType.ApplicationCommand;
                         raw_type_text := "2" |})
  else if String.eqb s "autocomplete"
  then Returned (Some {| raw_id := "3";
                         raw_type := Some InteractionType.ApplicationCommandAutocomplete;
                         raw_type_text := "4" |})
  else if String.eqb s "null" then Returned None
  else Threw (JsError "SyntaxError").

(** A stand-in for the conversion of a string to a number: decimal digits
    are read as the integer they spell and the empty string as 0; anything
    else is taken for no number. *)
Fixpoint digits (s : string) (acc : Z) : JsNumber :=
  match s with
  | EmptyString => Int acc
  | String c s' =>
      let n := Z.of_nat (nat_of_ascii c) - 48 in
      if Z.leb 0 n && Z.leb n 9 then digits s' (10 * acc + n) else NaN
  end.

Definition number_sample (s : string) : JsNumber := digits s 0.

(** A stand-in for [crypto.subtle]: every non-empty key imports, and the
    only valid signature of a message is the message itself. *)
Definition import_sample (hex : string) : Settled CryptoKey :=
  if String.eqb hex "" then Rejected (JsError "DataError")
  else Fulfilled (ImportedKey (String.length hex)).

Definition verify_sample (k : CryptoKey) (signature message : string)
    : Call (Settled bool) :=
  Returned (Fulfilled (String.eqb signature message)).

Definition sample_host : Host :=
  {| RawRequest := HostRequest;
     ToRequest := adapt;
     JSON_parse := parse_sample;
     Number_of_string := number_sample;
     importKey := import_sample;
     subtle_verify := verify_sample;
     DiscordVerificationHeaders_TimeStamp := "x-signature-timestamp";
     DiscordVerificationHeaders_Signature := "x-signature-ed25519" |}.

(** Values to run examples on. *)

(** A server that only answers POST: [post] is turned away by it. *)
Definition post_only (url : string) (init : REST.RequestInit)
    : Settled (REST.Response nat nat) :=
  if String.eqb (REST.method init) "POST"
  then Fulfilled {| REST.ok := true; REST.status := 200;
                    REST.statusText := "OK";
                    REST.content_type := Some "application/json";
                    REST.json := Fulfilled 7%nat;
                    REST.arrayBuffer := Fulfilled 0%nat |}
  else Rejected (JsError "method not allowed").

(** The defaults as a deployment could ship them: no debugging. *)
Definition shipped_defaults : Options :=
  <[ "debug" := VBool false ]>
    (<[ "rest" := VRestOptions {| REST.token := None;
                                  REST.authPrefix_opt := None;
                                  REST.rootUrl_opt := None |} ]> ∅).

Definition sample_options : Options :=
  <[ "publicKey" := VStr "ab" ]>
    (<[ "replyTimeout" := VNum 3000 ]>
       (<[ "deferOnTimeout" := VBool true ]> ∅)).

Definition nobody : Listeners :=
  {| onInteractionCreate := []; onError := false |}.

Definition command_request : IRequest :=
  {| headers := ∅; body := Some "command" |}.

Definition answer : APIInteractionResponse :=
  {| resp_type := 4; resp_data := Some "hello"; stringify_throws := None |}.



Definition not_found (url : string) (init : REST.RequestInit)
    : Settled (REST.Response nat nat) :=
  Fulfilled {| REST.ok := false; REST.status := 404;
               REST.statusText := "Not Found";
               REST.content_type := Some "application/json";
               REST.json := Fulfilled 0%nat;
               REST.arrayBuffer := Fulfilled 0%nat |}.

Definition sample_rest : REST.Rest :=
  REST.constructor "https://discord.com/api/v10"
    {| REST.token := Some "t"; REST.authPrefix_opt := None;
       REST.rootUrl_opt := None |}.

Definition signed (b : string) : HostRequest :=
  BodyAndHeaders b
    (<[ "x-signature-timestamp" := "17" ]>
       (<[ "x-signature-ed25519" := "17" +:+ b ]> ∅)).



(** A custom verification function that accepts every request. *)
Definition trusting : JsFunction :=
  {| call_with_request := fun _ => Returned (Some (Fulfilled true));
     call_with_message := fun _ => Returned tt |}.

Definition trusting_options : Options :=
  <[ "verifyRequest" := VFunction trusting ]> sample_options.

(** ** The vocabulary of the properties *)

(** The outcome of a request: how the promise stands and when it settled. *)
Definition outcome (w : World) : Promise Reply * option Z :=
  (response w, settledAt w).

(** The part of the world that only the event loop and the handler's own
    methods change: options, key, listeners, clock, timer and signal. *)
Definition same_env (w w' : World) : Prop :=
  this_options w' = this_options w
  /\ this_publicKey w' = this_publicKey w
  /\ listeners w' = listeners w
  /\ clock w' = clock w
  /\ timer w' = timer w
  /\ signal w' = signal w.

(** A world that differs from another in its trace only. *)
Definition logged (w w' : World) : Prop :=
  same_env w w' /\ outcome w' = outcome w /\ interaction w' = interaction w.

(** What a callback resolves the promise with. *)
Definition reply_of (cb : Callback) (p : APIInteractionResponse) : Reply :=
  match cb with
  | ResolveTransport => Transport (toResponse (ApiResponse p) None)
  | ResolvePayload | ThrowTimedOut => Payload p
  end.

Definition resolving (cb : Callback) : bool :=
  match cb with
  | ThrowTimedOut => false
  | _ => true
  end.

(** What [debug] throws on a message under the options [o]: nothing,
    unless the debug option is a function that throws on it. *)
Definition debug_throws (o : Options) (msg : DebugMsg) : option Exn :=
  match getprop o "debug" with
  | VFunction f =>
      match call_with_message f msg with
      | Threw e => Some e
      | Returned _ => None
      end
  | _ => None
  end.

(** What the callback of a handler throws on an answer before it gets to
    [resolve]: what [JSON.stringify] throws on the answer, or else what
    [debug] throws on the message. *)
Definition answer_throws (o : Options) (p : APIInteractionResponse)
    : option Exn :=
  match stringify_throws p with
  | Some e => Some e
  | None => debug_throws o (Resolving p)
  end.

(** A request in flight: the Interaction is Pending and holds the resolving
    callback [cb], and the signal, when there is one ([hs]), has not fired
    and is listened to. *)
Definition in_flight (cb : Callback) (hs : bool) (w : World) : Prop :=
  (exists i, interaction w = Some i /\ callback i = Some cb
             /\ responded i = false /\ timeout i = false)
  /\ match signal w with
     | Some s => hs = true /\ aborted s = None /\ listening s = true
     | None => hs = false
     end.

(** The invariant of a request: as long as its promise is pending, it is
    in flight. *)
Definition pending_in_flight (cb : Callback) (hs : bool) (w : World) : Prop :=
  response w = Pending -> in_flight cb hs w.





(** An Interaction that the abort listener has closed: its callback is the
    one that throws, so every answer is turned away; its flags are those
    of a Pending Interaction still. *)
Definition closed_by_abort (w : World) : Prop :=
  (exists i, interaction w = Some i /\ callback i = Some ThrowTimedOut
             /\ responded i = false /\ timeout i = false)
  /\ timer w = None
  /\ exists s reason, signal w = Some s /\ aborted s = Some reason.

Definition is_debug (e : Effect) : bool :=
  match e with
  | ConsoleDebug _ | SinkDebug _ => true
  | _ => false
  end.


Definition pong : APIInteractionResponse :=
  {| resp_type := InteractionResponseType.Pong; resp_data := None;
     stringify_throws := None |}.



(** Two worlds that differ at most in the trace and in the debug option,
    and whose debug options throw alike. *)
Definition alike (w w' : World) : Prop :=
  delete "debug" (this_options w) = delete "debug" (this_options w')
  /\ (forall msg, debug_throws (this_options w) msg
                  = debug_throws (this_options w') msg)
  /\ this_publicKey w = this_publicKey w'
  /\ listeners w = listeners w'
  /\ clock w = clock w'
  /\ response w = response w'
  /\ settledAt w = settledAt w'
  /\ timer w = timer w'
  /\ signal w = signal w'
  /\ interaction w = interaction w'.

(** The fields of two worlds that are alike. *)
Ltac alike_fields H := destruct H as (? & ? & ? & ? & ? & ? & ? & ? & ? & ?).

Section Vocabulary.

Context {host : Host}.



(** What the signalled handler reads its [body] argument as. *)
Definition reads_as (b : Signalled.Body) : option (option APIInteraction) :=
  tryAndValue
    (match b with
     | Signalled.Text s => JSON_parse s
     | Signalled.Object o => Returned (Some o)
     end).



End Vocabulary.

(** * Properties *)

(** ** The REST helpers *)

Section RestFacts.

Variables Json Bytes : Type.
Variable JSON_stringify : option Json -> Call (option string).
Variable URLSearchParams_toString : list (string * string) -> string.
Variable fetch : string -> REST.RequestInit -> Settled (REST.Response Json Bytes).

Lemma makeRequest_verb (this : REST.Rest) (m path : string)
    (opts : option (REST.RESTCommonOptions Json)) :
  REST.verbs
    (snd (REST.makeRequest Json Bytes JSON_stringify URLSearchParams_toString
            fetch this m path opts))
  = match JSON_stringify (opts ≫= REST.body) with
    | Returned _ => [m]
    | Threw _ => []
    end.
Proof.
  unfold REST.makeRequest. by destruct (JSON_stringify _).
Qed.

(** C9: the verb each helper hands to [fetch] through [makeRequest]:
    [get] and [delete] issue their own verb, [put] issues the lower-case
    text put, and [post] and [patch] both issue GET.  (No request is
    issued at all when [JSON.stringify] throws on the body.) *)
Theorem helpers_issue (this : REST.Rest) (path : string)
    (opts : option (REST.RESTCommonOptions Json)) :
  let verb helper :=
    REST.verbs
      (snd (helper Json Bytes JSON_stringify
              URLSearchParams_toString fetch this path opts)) in
  let sent (v : string) :=
    match JSON_stringify (opts ≫= REST.body) with
    | Returned _ => [v]
    | Threw _ => []
    end in
  verb REST.get = sent "GET"
  /\ verb REST.post = sent "GET"
  /\ verb REST.put = sent "put"
  /\ verb REST.patch = sent "GET"
  /\ verb REST.delete = sent "DELETE".
Proof.
  cbv zeta. unfold REST.get, REST.post, REST.put, REST.patch, REST.delete.
  rewrite !makeRequest_verb. repeat split.
Qed.

(** [post] and [patch] are the same function as [get]. *)
Lemma post_patch_are_get (this : REST.Rest) (path : string)
    (opts : option (REST.RESTCommonOptions Json)) :
  REST.post Json Bytes JSON_stringify URLSearchParams_toString fetch this path opts
  = REST.get Json Bytes JSON_stringify URLSearchParams_toString fetch this path opts
  /\ REST.patch Json Bytes JSON_stringify URLSearchParams_toString fetch this path opts
     = REST.get Json Bytes JSON_stringify URLSearchParams_toString fetch this path opts.
Proof. split; reflexivity. Qed.

End RestFacts.

Example post_is_turned_away :
  let this := REST.constructor "https://discord.com/api/v10"
                {| REST.token := Some "t"; REST.authPrefix_opt := None;
                   REST.rootUrl_opt := None |} in
  fst (REST.post nat nat (fun _ => Returned None) (fun _ => "")
         post_only this "/channels/1/messages" None)
  = REST.RestRejected (JsError "method not allowed")
  /\ fst (REST.makeRequest nat nat (fun _ => Returned None)
            (fun _ => "") post_only this "POST" "/channels/1/messages" None)
     = REST.RestJson 7%nat.
Proof. split; vm_compute; reflexivity. Qed.

(** ** The constructors and the shared defaults *)

Lemma Object_assign_target (target : positive) (sources : list Options)
    (σ : Heap) :
  Object_assign target sources σ !!! target
  = foldl (fun t s => s ∪ t) (σ !!! target) sources.
Proof. unfold Object_assign. by rewrite lookup_total_insert_eq. Qed.

Lemma Object_assign_other (target l : positive) (sources : list Options)
    (σ : Heap) :
  l ≠ target -> Object_assign target sources σ !! l = σ !! l.
Proof. intros Hne. unfold Object_assign. by rewrite lookup_insert_ne. Qed.

Lemma fresh_not_allocated (σ : Heap) (l : positive) :
  is_Some (σ !! l) -> l ≠ fresh (dom σ).
Proof.
  intros Hl ->. apply (is_fresh (dom σ)). by apply elem_of_dom.
Qed.

(** The verifying constructor merges into a new object: what it builds is
    the user's options over the defaults. *)
Lemma verifying_merged (opts : Options) (σ : Heap) :
  snd (Verifying.constructor opts σ) !!! fresh (dom σ)
  = opts ∪ (σ !!! defaultOptions).
Proof.
  unfold Verifying.constructor.
  set (o := fresh (dom σ)).
  assert (Hm : Object_assign o [σ !!! defaultOptions; opts] (<[o:=∅]> σ) !!! o
               = opts ∪ (σ !!! defaultOptions)).
  { rewrite Object_assign_target, lookup_total_insert_eq. simpl.
    by rewrite (right_id_L ∅ (∪)). }
  destruct (negb _); simpl; exact Hm.
Qed.

(** The verifying constructor leaves every object that exists alone, the
    shared defaults included. *)
Lemma verifying_constructor_frame (opts : Options) (σ : Heap) (l : positive) :
  is_Some (σ !! l) -> snd (Verifying.constructor opts σ) !! l = σ !! l.
Proof.
  intros Hl. pose proof (fresh_not_allocated σ l Hl) as Hne.
  unfold Verifying.constructor.
  destruct (negb _); simpl;
    by rewrite Object_assign_other, lookup_insert_ne.
Qed.

(** The signalled constructor writes the user's options into the shared
    defaults, whether it returns or throws, and hands that very object to
    the handler. *)
Lemma signalled_constructor_heap (api : string) (opts : Options) (σ : Heap) :
  snd (Signalled.constructor api opts σ)
  = Object_assign defaultOptions [opts] σ.
Proof.
  unfold Signalled.constructor. by destruct (Signalled.rest_options _).
Qed.

Lemma signalled_constructor_writes_defaults (api : string) (opts : Options)
    (σ : Heap) :
  observed (snd (Signalled.constructor api opts σ)) defaultOptions
  = opts ∪ observed σ defaultOptions
  /\ forall h, fst (Signalled.constructor api opts σ) = Returned h ->
       Signalled.options h = defaultOptions.
Proof.
  rewrite signalled_constructor_heap. unfold observed. split.
  - by rewrite Object_assign_target.
  - unfold Signalled.constructor.
    destruct (Signalled.rest_options _); intros h Hh; inversion Hh; reflexivity.
Qed.

(** C8: two constructions of the signalled handler, the first with debugging
    switched on, the second with no options at all.  Both handlers hold the
    defaults object itself, which the first construction has changed: the
    second handler observes the debugging the first one asked for. *)
Theorem signalled_constructions_interfere :
  let σ0 := boot shipped_defaults in
  let first := Signalled.constructor "api" (<[ "debug" := VBool true ]> ∅) σ0 in
  let second := Signalled.constructor "api" ∅ (snd first) in
  getprop (observed σ0 defaultOptions) "debug" = VBool false
  /\ (exists h1 h2,
        fst first = Returned h1 /\ fst second = Returned h2
        /\ Signalled.options h1 = Signalled.options h2
        /\ getprop (observed (snd second) (Signalled.options h2)) "debug"
           = VBool true)
  /\ getprop (observed (snd second) defaultOptions) "debug" = VBool true.
Proof.
  cbv zeta. split; [vm_compute; reflexivity |]. split.
  - eexists _, _. repeat split; vm_compute; reflexivity.
  - vm_compute; reflexivity.
Qed.

(** The same two constructions of the verifying handler do not interfere. *)
Example verifying_constructions_independent :
  let σ0 := boot (<[ "publicKey" := VStr "ab" ]> shipped_defaults) in
  let first := Verifying.constructor (<[ "debug" := VBool true ]> ∅) σ0 in
  let second := Verifying.constructor ∅ (snd first) in
  exists h1 h2,
    fst first = Returned h1 /\ fst second = Returned h2
    /\ Verifying.options h1 ≠ Verifying.options h2
    /\ getprop (observed (snd second) (Verifying.options h1)) "debug" = VBool true
    /\ getprop (observed (snd second) (Verifying.options h2)) "debug" = VBool false
    /\ getprop (observed (snd second) defaultOptions) "debug" = VBool false.
Proof.
  cbv zeta. eexists _, _.
  split; [vm_compute; reflexivity |]. split; [vm_compute; reflexivity |].
  repeat split; try (vm_compute; reflexivity). vm_compute. discriminate.
Qed.

(** C10: the verifying constructor throws a DisciValidationError whenever
    the merge of the options over the defaults has no truthy publicKey, and
    whenever it returns a handler, the configuration of that handler is the
    merge and its publicKey is truthy. *)
Theorem constructor_requires_publicKey (opts : Options) (σ : Heap) :
  let merged := opts ∪ observed σ defaultOptions in
  (truthy (getprop merged "publicKey") = false ->
     fst (Verifying.constructor opts σ)
     = Threw (DisciValidationError "Public key is required"))
  /\ (forall h, fst (Verifying.constructor opts σ) = Returned h ->
        observed (snd (Verifying.constructor opts σ)) (Verifying.options h)
        = merged
        /\ truthy (getprop merged "publicKey") = true).
Proof.
  cbv zeta. unfold observed.
  pose proof (verifying_merged opts σ) as Hm.
  unfold Verifying.constructor in *.
  set (o := fresh (dom σ)) in *.
  set (σ1 := Object_assign o [σ !!! defaultOptions; opts] (<[o:=∅]> σ)) in *.
  destruct (truthy (getprop (σ1 !!! o) "publicKey")) eqn:Hk; simpl in *.
  - rewrite Hm in Hk. split; [congruence |].
    intros h Hh. inversion Hh; subst h; simpl. by rewrite Hm.
  - split; [reflexivity | discriminate].
Qed.

(** Options with no key over defaults with no key: the constructor throws. *)
Lemma constructor_requires_publicKey_witness :
  fst (Verifying.constructor (<[ "debug" := VBool true ]> ∅) (boot shipped_defaults))
  = Threw (DisciValidationError "Public key is required").
Proof.
  apply (proj1 (constructor_requires_publicKey
                  (<[ "debug" := VBool true ]> ∅) (boot shipped_defaults))).
  vm_compute. reflexivity.
Defined.

(** ** What [debug] does *)

(** [debug] adds at most one message to the trace, whether it throws or
    not. *)
Lemma debug_log (msg : DebugMsg) (w : World) :
  snd (debug msg w) = w
  \/ exists e, is_debug e = true /\ snd (debug msg w) = log e w.
Proof.
  unfold debug. destruct (truthy _); [| by left].
  destruct (getprop _ _); right; eexists; (split; [| reflexivity]); reflexivity.
Qed.

(** [debug] throws what the debug function throws, and nothing else. *)
Lemma debug_result (msg : DebugMsg) (w : World) :
  fst (debug msg w)
  = match debug_throws (this_options w) msg with
    | Some e => Threw e
    | None => Returned tt
    end.
Proof.
  unfold debug, debug_throws.
  destruct (getprop (this_options w) "debug") as [| |b|x|s|f| |];
    try (by match goal with |- context [truthy ?v] => destruct (truthy v) end).
  simpl. by destruct (call_with_message f msg) as [e|[]].
Qed.



(** ** What the operations leave alone *)

Lemma same_env_refl (w : World) : same_env w w.
Proof. unfold same_env; auto 10. Qed.

Lemma same_env_trans (w1 w2 w3 : World) :
  same_env w1 w2 -> same_env w2 w3 -> same_env w1 w3.
Proof.
  unfold same_env. intros (?&?&?&?&?&?) (?&?&?&?&?&?).
  repeat split; congruence.
Qed.

Lemma same_env_log (e : Effect) (w : World) : same_env w (log e w).
Proof. unfold same_env; simpl; auto 10. Qed.

Lemma logged_refl (w : World) : logged w w.
Proof. split; [apply same_env_refl | auto]. Qed.

Lemma logged_trans (w1 w2 w3 : World) :
  logged w1 w2 -> logged w2 w3 -> logged w1 w3.
Proof.
  intros (He & Ho & Hi) (He' & Ho' & Hi').
  split; [by apply same_env_trans with w2 | split; congruence].
Qed.

Lemma logged_log (e : Effect) (w : World) : logged w (log e w).
Proof. split; [apply same_env_log | auto]. Qed.

Lemma logged_debug (msg : DebugMsg) (w : World) : logged w (snd (debug msg w)).
Proof.
  destruct (debug_log msg w) as [-> | (e & _ & ->)];
    [apply logged_refl | apply logged_log].
Qed.

Lemma logged_debugResolving (p : APIInteractionResponse) (w : World) :
  logged w (snd (debugResolving p w)).
Proof.
  unfold debugResolving. destruct (stringify_throws p);
    [apply logged_refl | apply logged_debug].
Qed.

Lemma logged_response (w w' : World) : logged w w' -> response w' = response w.
Proof. intros (_ & Ho & _). unfold outcome in Ho. congruence. Qed.

Lemma logged_clock (w w' : World) : logged w w' -> clock w' = clock w.
Proof. by intros ((_&_&_&?&_) & _). Qed.


Lemma logged_interaction (w w' : World) :
  logged w w' -> interaction w' = interaction w.
Proof. by intros (_ & _ & ?). Qed.

Lemma logged_outcome (w w' : World) : logged w w' -> outcome w' = outcome w.
Proof. by intros (_ & ? & _). Qed.

Lemma logged_env (w w' : World) : logged w w' -> same_env w w'.
Proof. by intros (? & _). Qed.

Lemma debugResolving_result (p : APIInteractionResponse) (w : World) :
  fst (debugResolving p w)
  = match answer_throws (this_options w) p with
    | Some e => Threw e
    | None => Returned tt
    end.
Proof.
  unfold debugResolving, answer_throws.
  destruct (stringify_throws p); [reflexivity | apply debug_result].
Qed.

Lemma same_env_resolve (r : Reply) (w : World) : same_env w (resolve r w).
Proof.
  unfold resolve. destruct (is_pending _); [| apply same_env_refl].
  unfold same_env; simpl; auto 10.
Qed.

Lemma same_env_reject (e : Exn) (w : World) : same_env w (reject e w).
Proof.
  unfold reject. destruct (is_pending _); [| apply same_env_refl].
  unfold same_env; simpl; auto 10.
Qed.

Lemma same_env_with_interaction (i : option Interaction) (w : World) :
  same_env w (with_interaction i w).
Proof. unfold same_env; simpl; auto 10. Qed.

Lemma interaction_resolve (r : Reply) (w : World) :
  interaction (resolve r w) = interaction w.
Proof. unfold resolve. by destruct (is_pending _). Qed.

Lemma interaction_reject (e : Exn) (w : World) :
  interaction (reject e w) = interaction w.
Proof. unfold reject. by destruct (is_pending _). Qed.

Lemma resolve_done (r : Reply) (w : World) (s : Settled Reply) :
  response w = Done s -> resolve r w = w.
Proof. intros H. unfold resolve. by rewrite H. Qed.

Lemma reject_done (e : Exn) (w : World) (s : Settled Reply) :
  response w = Done s -> reject e w = w.
Proof. intros H. unfold reject. by rewrite H. Qed.

Lemma resolve_pending (r : Reply) (w : World) :
  response w = Pending ->
  outcome (resolve r w) = (Done (Fulfilled r), Some (clock w)).
Proof. intros H. unfold resolve. rewrite H. reflexivity. Qed.

Lemma reject_pending (e : Exn) (w : World) :
  response w = Pending ->
  outcome (reject e w) = (Done (Rejected e), Some (clock w)).
Proof. intros H. unfold reject. rewrite H. reflexivity. Qed.

Lemma not_pending_resolve (r : Reply) (w : World) : response (resolve r w) ≠ Pending.
Proof.
  unfold resolve. destruct (response w) eqn:H; simpl; [discriminate | congruence].
Qed.

Lemma not_pending_reject (e : Exn) (w : World) : response (reject e w) ≠ Pending.
Proof.
  unfold reject. destruct (response w) eqn:H; simpl; [discriminate | congruence].
Qed.

(** ** The callbacks *)

(** What a resolving callback does with an answer: it throws what
    [JSON.stringify] or [debug] throws, and resolves nothing; or it
    resolves the promise with its reply. *)
Lemma invoke_resolving (cb : Callback) (p : APIInteractionResponse) (w : World) :
  resolving cb = true ->
  invoke (Some cb) p w
  = match answer_throws (this_options w) p with
    | Some e => (Threw e, snd (debugResolving p w))
    | None => (Returned tt, resolve (reply_of cb p) (snd (debugResolving p w)))
    end.
Proof.
  intros Hcb. pose proof (debugResolving_result p w) as Hr.
  destruct cb; try discriminate; simpl;
    unfold resolveTransport, resolvePayload;
    destruct (debugResolving p w) as [[e|[]] w1]; simpl in *;
    destruct (answer_throws (this_options w) p); congruence.
Qed.

(** A callback that throws has changed nothing but the trace. *)
Lemma invoke_threw (cb : option Callback) (p : APIInteractionResponse)
    (w w' : World) (e : Exn) :
  invoke cb p w = (Threw e, w') -> logged w w'.
Proof.
  pose proof (logged_debugResolving p w) as Hl.
  destruct cb as [[]|]; simpl;
    unfold resolveTransport, resolvePayload, throwTimedOut;
    try (destruct (debugResolving p w) as [[e'|[]] w1]; simpl in *);
    intros H; inversion H; subst; first [exact Hl | apply logged_refl].
Qed.

(** A callback that returns has called [resolve]. *)
Lemma invoke_returned (cb : option Callback) (p : APIInteractionResponse)
    (w w' : World) (u : unit) :
  invoke cb p w = (Returned u, w') ->
  exists r w1, logged w w1 /\ w' = resolve r w1.
Proof.
  pose proof (logged_debugResolving p w) as Hl.
  destruct cb as [[]|]; simpl;
    unfold resolveTransport, resolvePayload, throwTimedOut;
    try (destruct (debugResolving p w) as [[e'|[]] w1]; simpl in *);
    intros H; inversion H; subst; eauto.
Qed.

Lemma same_env_invoke (cb : option Callback) (p : APIInteractionResponse)
    (w : World) :
  same_env w (snd (invoke cb p w))
  /\ interaction (snd (invoke cb p w)) = interaction w.
Proof.
  destruct (invoke cb p w) as [[e|u] w'] eqn:Hi; simpl.
  - apply invoke_threw in Hi. split; [by apply logged_env | by apply logged_interaction].
  - apply invoke_returned in Hi as (r & w1 & Hl & ->). split.
    + eapply same_env_trans; [by apply logged_env | apply same_env_resolve].
    + rewrite interaction_resolve. by apply logged_interaction.
Qed.

Lemma outcome_invoke (cb : option Callback) (p : APIInteractionResponse)
    (w : World) (s : Settled Reply) :
  response w = Done s -> outcome (snd (invoke cb p w)) = outcome w.
Proof.
  intros H. destruct (invoke cb p w) as [[e|u] w'] eqn:Hi; simpl.
  - apply invoke_threw in Hi. by apply logged_outcome.
  - apply invoke_returned in Hi as (r & w1 & Hl & ->).
    rewrite (resolve_done r w1 s); [by apply logged_outcome |].
    by rewrite (logged_response w w1).
Qed.

(** ** The Interaction *)

Lemma same_env_respond (p : APIInteractionResponse) (w : World) :
  same_env w (InteractionObject.respond p w).
Proof.
  unfold InteractionObject.respond.
  destruct (interaction w) as [i|]; [| apply same_env_refl].
  destruct (responded i || timeout i); [apply same_env_log |].
  pose proof (same_env_invoke (callback i) p w) as [He _].
  destruct (invoke (callback i) p w) as [[e|u] w']; simpl in *.
  - eapply same_env_trans; [exact He | apply same_env_log].
  - eapply same_env_trans; [exact He | apply same_env_with_interaction].
Qed.

Lemma outcome_respond (p : APIInteractionResponse) (w : World)
    (s : Settled Reply) :
  response w = Done s -> outcome (InteractionObject.respond p w) = outcome w.
Proof.
  intros H. unfold InteractionObject.respond.
  destruct (interaction w) as [i|]; [| reflexivity].
  destruct (responded i || timeout i); [reflexivity |].
  pose proof (outcome_invoke (callback i) p w s H) as Hi.
  destruct (invoke (callback i) p w) as [[e|u] w']; simpl in *; exact Hi.
Qed.

(** A second answer to an interaction that has responded is refused: only
    the trace records it. *)
Lemma respond_refused (p : APIInteractionResponse) (w : World) (i : Interaction) :
  interaction w = Some i -> responded i || timeout i = true ->
  InteractionObject.respond p w = log (DoubleResponse (id i)) w.
Proof.
  intros Hi Hr. unfold InteractionObject.respond. by rewrite Hi, Hr.
Qed.

(** An answer leaves the promise pending only by leaving everything but
    the trace as it was. *)
Lemma respond_pending (p : APIInteractionResponse) (w : World) :
  response (InteractionObject.respond p w) = Pending ->
  logged w (InteractionObject.respond p w).
Proof.
  unfold InteractionObject.respond.
  destruct (interaction w) as [i|]; [| intros _; apply logged_refl].
  destruct (responded i || timeout i); [intros _; apply logged_log |].
  destruct (invoke (callback i) p w) as [[e|u] w'] eqn:Hi.
  - intros _. apply invoke_threw in Hi.
    eapply logged_trans; [exact Hi | apply logged_log].
  - apply invoke_returned in Hi as (r & w1 & Hl & ->). simpl.
    intros Hp. by apply not_pending_resolve in Hp.
Qed.

(** The first answer to an interaction in flight, when the callback does
    not throw on it, settles the promise with the callback's reply, marks
    the interaction responded and leaves the timer as it is. *)
Lemma respond_in_flight (cb : Callback) (hs : bool)
    (p : APIInteractionResponse) (w : World) :
  resolving cb = true -> response w = Pending -> in_flight cb hs w ->
  answer_throws (this_options w) p = None ->
  outcome (InteractionObject.respond p w)
  = (Done (Fulfilled (reply_of cb p)), Some (clock w))
  /\ (exists i, interaction w = Some i
        /\ interaction (InteractionObject.respond p w)
           = Some (InteractionObject.set_responded i))
  /\ timer (InteractionObject.respond p w) = timer w.
Proof.
  intros Hcb Hp ((i & Hi & Hc & Hr & Ht) & _) Hok.
  pose proof (same_env_respond p w) as (_&_&_&_&Hti&_).
  pose proof (logged_debugResolving p w) as Hl.
  split; [| split; [| exact Hti]].
  - unfold InteractionObject.respond. rewrite Hi, Hr, Ht, Hc. simpl orb. cbv iota.
    rewrite (invoke_resolving cb p w Hcb), Hok.
    unfold outcome; simpl.
    rewrite <- (logged_clock _ _ Hl).
    apply resolve_pending. by rewrite (logged_response _ _ Hl).
  - exists i. split; [exact Hi |].
    unfold InteractionObject.respond. rewrite Hi, Hr, Ht, Hc. simpl orb. cbv iota.
    by rewrite (invoke_resolving cb p w Hcb), Hok.
Qed.

(** An answer on which the callback throws changes nothing but the
    trace. *)
Lemma respond_throws (cb : Callback) (hs : bool)
    (p : APIInteractionResponse) (w : World) (e : Exn) :
  resolving cb = true -> in_flight cb hs w ->
  answer_throws (this_options w) p = Some e ->
  logged w (InteractionObject.respond p w).
Proof.
  intros Hcb ((i & Hi & Hc & Hr & Ht) & _) Hthrows.
  unfold InteractionObject.respond. rewrite Hi, Hr, Ht, Hc. simpl orb. cbv iota.
  rewrite (invoke_resolving cb p w Hcb), Hthrows.
  eapply logged_trans; [apply logged_debugResolving | apply logged_log].
Qed.

(** ** The alarm and the abort listener *)

Lemma same_env_timeoutAlarm (w : World) : same_env w (timeoutAlarm w).
Proof.
  unfold timeoutAlarm.
  destruct (interaction w) as [i|]; [| apply same_env_refl].
  destruct (negb (responded i)); [| apply same_env_refl].
  pose proof (logged_env _ _ (logged_debug (TimedOutId (id i)) w)) as H1.
  destruct (debug (TimedOutId (id i)) w) as [[e|u] w1]; simpl in H1.
  { eapply same_env_trans; [exact H1 | apply same_env_log]. }
  destruct (truthy _ && _).
  - pose proof (logged_env _ _ (logged_debug (AutoDeferred (id i)) w1)) as H2.
    destruct (debug (AutoDeferred (id i)) w1) as [[e|u'] w2]; simpl in H2.
    + eapply same_env_trans; [exact H1 |].
      eapply same_env_trans; [exact H2 | apply same_env_log].
    + unfold InteractionObject.deferResponse.
      eapply same_env_trans; [exact H1 |].
      eapply same_env_trans; [exact H2 | apply same_env_respond].
  - eapply same_env_trans; [exact H1 |].
    eapply same_env_trans; [| apply same_env_resolve].
    apply same_env_with_interaction.
Qed.

Lemma outcome_timeoutAlarm (w : World) (s : Settled Reply) :
  response w = Done s -> outcome (timeoutAlarm w) = outcome w.
Proof.
  intros H. unfold timeoutAlarm.
  destruct (interaction w) as [i|]; [| reflexivity].
  destruct (negb (responded i)); [| reflexivity].
  pose proof (logged_debug (TimedOutId (id i)) w) as H1.
  destruct (debug (TimedOutId (id i)) w) as [[e|u] w1]; simpl in H1.
  { by apply logged_outcome. }
  assert (Hs1 : response w1 = Done s) by (by rewrite (logged_response _ _ H1)).
  destruct (truthy _ && _).
  - pose proof (logged_debug (AutoDeferred (id i)) w1) as H2.
    destruct (debug (AutoDeferred (id i)) w1) as [[e|u'] w2]; simpl in H2.
    + simpl. rewrite <- (logged_outcome _ _ H1). by apply logged_outcome.
    + unfold InteractionObject.deferResponse.
      rewrite (outcome_respond _ _ s) by (by rewrite (logged_response _ _ H2)).
      rewrite (logged_outcome _ _ H2). by apply logged_outcome.
  - rewrite (resolve_done _ _ s); [| exact Hs1].
    unfold outcome; simpl. by apply (logged_outcome w w1).
Qed.

Lemma same_env_abortListener (w : World) : same_env w (abortListener w).
Proof.
  unfold abortListener.
  destruct (interaction w) as [i|]; [| apply same_env_refl].
  destruct (signal w ≫= aborted) as [reason|]; [| apply same_env_refl].
  eapply same_env_trans; [apply same_env_with_interaction | apply same_env_reject].
Qed.

Lemma outcome_abortListener (w : World) (s : Settled Reply) :
  response w = Done s -> outcome (abortListener w) = outcome w.
Proof.
  intros H. unfold abortListener.
  destruct (interaction w) as [i|]; [| reflexivity].
  destruct (signal w ≫= aborted) as [reason|]; [| reflexivity].
  by rewrite (reject_done _ _ s).
Qed.

(** ** The promise settles once *)

Lemma outcome_step (e : Event) (w : World) (s : Settled Reply) :
  response w = Done s -> outcome (step e w) = outcome w.
Proof.
  intros H. destruct e as [ms| |p|reason]; simpl.
  - reflexivity.
  - destruct (timer w) as [due|]; [| reflexivity].
    destruct (Z.leb due (clock w)); [| reflexivity].
    by rewrite (outcome_timeoutAlarm _ s).
  - by apply outcome_respond with s.
  - destruct (signal w) as [sg|]; [| reflexivity].
    destruct (aborted sg); [reflexivity |].
    destruct (listening sg); [| reflexivity].
    by rewrite (outcome_abortListener _ s).
Qed.

Lemma outcome_run (es : list Event) (w : World) (s : Settled Reply) :
  response w = Done s -> outcome (run es w) = outcome w.
Proof.
  revert w. induction es as [|e es IH]; intros w H; [reflexivity |].
  pose proof (outcome_step e w s H) as He.
  change (run (e :: es) w) with (run es (step e w)).
  rewrite IH; [exact He |].
  unfold outcome in He. congruence.
Qed.

Lemma run_app (es1 es2 : list Event) (w : World) :
  run (es1 ++ es2) w = run es2 (run es1 w).
Proof. unfold run. apply foldl_app. Qed.

(** A step never changes the options and never turns the clock back; the
    alarm leaves the timer only by running, and it runs only when due. *)
Lemma step_env (e : Event) (w : World) :
  this_options (step e w) = this_options w
  /\ clock w <= clock (step e w)
  /\ (timer (step e w) = timer w
      \/ (timer (step e w) = None
          /\ exists due, timer w = Some due /\ due <= clock (step e w))).
Proof.
  destruct e as [ms| |p|reason]; simpl.
  - repeat split; [lia | by left].
  - destruct (timer w) as [due|] eqn:Htm; [| repeat split; [lia | by left]].
    destruct (Z.leb due (clock w)) eqn:Hdue;
      [| repeat split; [lia | by left]].
    destruct (same_env_timeoutAlarm (log AlarmRan (with_timer None w)))
      as (Ho&_&_&Hc&Ht&_).
    simpl in *. rewrite Ho, Hc, Ht.
    repeat split; [lia |]. right. split; [reflexivity |].
    exists due. split; [reflexivity | lia].
  - destruct (same_env_respond p w) as (Ho&_&_&Hc&Ht&_).
    rewrite Ho, Hc, Ht. repeat split; [lia | by left].
  - destruct (signal w) as [s|]; [| repeat split; [lia | by left]].
    destruct (aborted s); [repeat split; [lia | by left] |].
    destruct (listening s); [| simpl; repeat split; [lia | by left]].
    match goal with |- context [abortListener ?x] =>
      destruct (same_env_abortListener x) as (Ho&_&_&Hc&Ht&_) end.
    simpl in *. rewrite Ho, Hc, Ht. repeat split; [lia | by left].
Qed.

Lemma options_run (es : list Event) (w : World) :
  this_options (run es w) = this_options w.
Proof.
  revert w. induction es as [|e es IH]; intros w; [reflexivity |].
  change (run (e :: es) w) with (run es (step e w)).
  rewrite IH. by destruct (step_env e w) as (-> & _).
Qed.

(** ** Requests in flight *)

Lemma in_flight_same (cb : Callback) (hs : bool) (w w' : World) :
  same_env w w' -> interaction w' = interaction w ->
  in_flight cb hs w -> in_flight cb hs w'.
Proof.
  intros (_&_&_&_&_&Hs) Hi (Hl & Hsig).
  unfold in_flight. rewrite Hi, Hs. auto.
Qed.

Lemma in_flight_logged (cb : Callback) (hs : bool) (w w' : World) :
  logged w w' -> in_flight cb hs w -> in_flight cb hs w'.
Proof.
  intros (He & _ & Hi). by apply in_flight_same.
Qed.

(** The alarm leaves the promise pending only when it does nothing, or when
    something it calls throws: the Interaction is as it was. *)
Lemma timeoutAlarm_pending (w : World) :
  response w = Pending -> response (timeoutAlarm w) = Pending ->
  interaction (timeoutAlarm w) = interaction w.
Proof.
  intros Hp. unfold timeoutAlarm.
  destruct (interaction w) as [i|] eqn:Hi; [| by rewrite Hi].
  destruct (negb (responded i)); [| by rewrite Hi].
  pose proof (logged_debug (TimedOutId (id i)) w) as H1.
  destruct (debug (TimedOutId (id i)) w) as [[e|u] w1]; simpl in H1.
  { intros _. simpl. rewrite <- Hi. by apply logged_interaction. }
  destruct (truthy _ && _).
  - pose proof (logged_debug (AutoDeferred (id i)) w1) as H2.
    destruct (debug (AutoDeferred (id i)) w1) as [[e|u'] w2]; simpl in H2.
    + intros _. simpl. rewrite <- Hi.
      rewrite (logged_interaction _ _ H2). by apply logged_interaction.
    + unfold InteractionObject.deferResponse. intros Hp'.
      rewrite (logged_interaction _ _ (respond_pending _ _ Hp')).
      rewrite (logged_interaction _ _ H2), <- Hi. by apply logged_interaction.
  - intros Hp'. by apply not_pending_resolve in Hp'.
Qed.

Lemma step_settles_or_waits (cb : Callback) (hs : bool)
    (e : Event) (w : World) :
  response w = Pending -> in_flight cb hs w ->
  response (step e w) = Pending -> in_flight cb hs (step e w).
Proof.
  intros Hp Hfl Hp'.
  destruct e as [ms| |p|reason]; simpl in *.
  - exact Hfl.
  - destruct (timer w) as [due|] eqn:Htm; [| exact Hfl].
    destruct (Z.leb due (clock w)); [| exact Hfl].
    set (w1 := log AlarmRan (with_timer None w)) in *.
    assert (Hfl1 : in_flight cb hs w1) by exact Hfl.
    eapply in_flight_same; [apply same_env_timeoutAlarm | | exact Hfl1].
    by apply timeoutAlarm_pending.
  - eapply in_flight_logged; [| exact Hfl]. by apply respond_pending.
  - destruct Hfl as (Hl & Hsig).
    destruct (signal w) as [s|] eqn:Hs; [| by (split; [| rewrite Hs])].
    destruct Hsig as (Hhs & Hab & Hls). rewrite Hab, Hls in *.
    exfalso.
    destruct Hl as (i & Hi & _).
    unfold abortListener in Hp'. simpl in Hp'. rewrite Hi in Hp'.
    by apply not_pending_reject in Hp'.
Qed.

Lemma step_keeps_invariant (cb : Callback) (hs : bool)
    (e : Event) (w : World) :
  pending_in_flight cb hs w -> pending_in_flight cb hs (step e w).
Proof.
  intros Hinv Hp'.
  destruct (response w) as [|s] eqn:Hp.
  - by apply step_settles_or_waits; auto.
  - pose proof (outcome_step e w s Hp) as Ho. unfold outcome in Ho. congruence.
Qed.

Lemma run_keeps_invariant (cb : Callback) (hs : bool)
    (es : list Event) (w : World) :
  pending_in_flight cb hs w -> pending_in_flight cb hs (run es w).
Proof.
  revert w. induction es as [|e es IH]; intros w Hinv; [exact Hinv |].
  change (run (e :: es) w) with (run es (step e w)).
  apply IH. by apply step_keeps_invariant.
Qed.

(** [emit] is a run of the listeners' answers. *)
Lemma emit_as_run (w : World) :
  emit_interactionCreate w
  = run (map Respond (onInteractionCreate (listeners w)))
        (log (Emitted "interactionCreate") w).
Proof.
  unfold emit_interactionCreate, run.
  generalize (log (Emitted "interactionCreate") w).
  induction (onInteractionCreate (listeners w)) as [|p ps IH]; intros w0;
    [reflexivity | apply IH].
Qed.

(** [emit] runs the listeners' answers through the Interaction: the
    invariant survives it. *)
Lemma emit_keeps_invariant (cb : Callback) (hs : bool) (w : World) :
  pending_in_flight cb hs w -> pending_in_flight cb hs (emit_interactionCreate w).
Proof.
  intros Hinv. rewrite emit_as_run. apply run_keeps_invariant.
  intros Hp. simpl in Hp.
  eapply in_flight_same; [apply same_env_log | reflexivity | by apply Hinv].
Qed.

(** Once an Interaction has left Pending (it has responded or timed out),
    no event changes its flags again. *)
Lemma step_flags (e : Event) (w : World) (i : Interaction) :
  interaction w = Some i -> responded i || timeout i = true ->
  exists i', interaction (step e w) = Some i'
             /\ responded i' = responded i /\ timeout i' = timeout i.
Proof.
  intros Hi Hfl. destruct e as [ms| |p|reason]; simpl.
  - eauto.
  - destruct (timer w) as [due|]; [| eauto].
    destruct (Z.leb due (clock w)); [| eauto].
    unfold timeoutAlarm. simpl interaction. rewrite Hi.
    destruct (responded i) eqn:Hr; simpl negb; cbv iota; [eauto |].
    simpl in Hfl.
    set (w0 := log AlarmRan (with_timer None w)).
    assert (Hi0 : interaction w0 = Some i) by exact Hi.
    pose proof (logged_debug (TimedOutId (id i)) w0) as H1.
    destruct (debug (TimedOutId (id i)) w0) as [[e|u] w1]; simpl in H1.
    { simpl. rewrite (logged_interaction _ _ H1). eauto. }
    assert (Hi1 : interaction w1 = Some i)
      by (by rewrite (logged_interaction _ _ H1)).
    destruct (truthy _ && _).
    + pose proof (logged_debug (AutoDeferred (id i)) w1) as H2.
      destruct (debug (AutoDeferred (id i)) w1) as [[e|u'] w2]; simpl in H2.
      * simpl. rewrite (logged_interaction _ _ H2). eauto.
      * unfold InteractionObject.deferResponse.
        erewrite respond_refused;
          [| by rewrite (logged_interaction _ _ H2) | by rewrite Hr, Hfl].
        simpl. rewrite (logged_interaction _ _ H2). eauto.
    + rewrite interaction_resolve. simpl.
      eexists. split; [reflexivity |]. simpl. auto.
  - rewrite (respond_refused p w i Hi Hfl). simpl. eauto.
  - destruct (signal w) as [s|]; [| eauto].
    destruct (aborted s); [eauto |].
    destruct (listening s); [| simpl; eauto].
    unfold abortListener. simpl. rewrite Hi.
    rewrite interaction_reject. simpl. eauto.
Qed.

Lemma run_flags (es : list Event) (w : World) (i : Interaction) :
  interaction w = Some i -> responded i || timeout i = true ->
  exists i', interaction (run es w) = Some i'
             /\ responded i' = responded i /\ timeout i' = timeout i.
Proof.
  revert w i. induction es as [|e es IH]; intros w i Hi Hfl; [eauto |].
  change (run (e :: es) w) with (run es (step e w)).
  destruct (step_flags e w i Hi Hfl) as (i1 & Hi1 & Hr1 & Ht1).
  destruct (IH (step e w) i1 Hi1) as (i2 & Hi2 & Hr2 & Ht2);
    [by rewrite Hr1, Ht1 |].
  exists i2. repeat split; congruence.
Qed.

Lemma factory_fresh (raw : APIInteraction) (i : Interaction) :
  InteractionFactory_from raw = Some i ->
  id i = raw_id raw /\ raw_type raw = Some (type i)
  /\ responded i = false /\ timeout i = false /\ callback i = None.
Proof.
  unfold InteractionFactory_from. intros H.
  destruct (raw_type raw) as [t|]; [| discriminate].
  destruct (_ || _); [| discriminate].
  injection H as <-. simpl. auto.
Qed.

(** A Ping yields no Interaction object. *)
Lemma factory_ping (raw : APIInteraction) :
  raw_type raw = Some InteractionType.Ping -> InteractionFactory_from raw = None.
Proof. unfold InteractionFactory_from. intros ->. reflexivity. Qed.

Lemma same_env_emit (w : World) : same_env w (emit_interactionCreate w).
Proof.
  unfold emit_interactionCreate.
  eapply same_env_trans; [apply (same_env_log (Emitted "interactionCreate")) |].
  generalize (log (Emitted "interactionCreate") w).
  induction (onInteractionCreate (listeners w)) as [|p ps IH]; intros w0;
    [apply same_env_refl |].
  simpl. eapply same_env_trans; [apply (same_env_respond p) | apply IH].
Qed.

Section Requests.

Context {host : Host}.

(** [processRequest] of the verifying handler changes neither the options
    nor the key, the listeners, the clock or the signal. *)
Lemma verifying_processRequest_env (req : IRequest) (w : World) :
  this_options (Verifying.processRequest req w) = this_options w
  /\ this_publicKey (Verifying.processRequest req w) = this_publicKey w
  /\ listeners (Verifying.processRequest req w) = listeners w
  /\ clock (Verifying.processRequest req w) = clock w
  /\ signal (Verifying.processRequest req w) = signal w.
Proof.
  unfold Verifying.processRequest.
  destruct (tryAndValue _) as [[raw|]|];
    try (match goal with |- context [reject ?e ?y] =>
           by destruct (same_env_reject e y) as (->&->&->&->&_&->) end).
  destruct (InteractionFactory_from raw) as [i|].
  - match goal with |- context [emit_interactionCreate ?y] =>
      by destruct (same_env_emit y) as (->&->&->&->&_&->) end.
  - destruct (bool_decide _).
    + match goal with |- context [resolve ?a ?y] =>
        by destruct (same_env_resolve a y) as (->&->&->&->&_&->) end.
    + match goal with |- context [debug ?m ?y] =>
        pose proof (logged_env _ _ (logged_debug m y)) as H1;
        destruct (debug m y) as [[e|u] w1] end; simpl in H1.
      * destruct (same_env_reject e w1) as (->&->&->&->&_&->).
        by destruct H1 as (->&->&->&->&_&->).
      * match goal with |- context [resolve ?a w1] =>
          destruct (same_env_resolve a w1) as (->&->&->&->&_&->) end.
        by destruct H1 as (->&->&->&->&_&->).
Qed.

Lemma signalled_processRequest_options (b : Signalled.Body) (w : World) :
  this_options (Signalled.processRequest b w) = this_options w.
Proof.
  unfold Signalled.processRequest.
  destruct (signal w ≫= aborted) as [reason|];
    [by destruct (same_env_reject reason w) as (->&_) |].
  set (w1 := match b with
             | Signalled.Text s => log (Parsed (Some s)) w
             | Signalled.Object _ => w
             end).
  assert (Hw1 : this_options w1 = this_options w) by (subst w1; by destruct b).
  destruct (tryAndValue _) as [[raw|]|];
    try (match goal with |- context [reject ?e ?y] =>
           by destruct (same_env_reject e y) as (->&_) end).
  destruct (InteractionFactory_from raw) as [i|].
  - match goal with |- context [emit_interactionCreate ?y] =>
      destruct (same_env_emit y) as (->&_) end.
    unfold Signalled.addEventListener. simpl.
    by destruct (signal w1).
  - destruct (bool_decide _).
    + match goal with |- context [resolve ?a ?y] =>
        by destruct (same_env_resolve a y) as (->&_) end.
    + match goal with |- context [reject ?e ?y] =>
        by destruct (same_env_reject e y) as (->&_) end.
Qed.

(** The world [processRequest] of the verifying handler leaves satisfies
    the invariant. *)
Lemma verifying_request_invariant (req : IRequest) (w : World) :
  signal w = None ->
  pending_in_flight ResolveTransport false (Verifying.processRequest req w).
Proof.
  intros Hs. unfold Verifying.processRequest.
  destruct (tryAndValue _) as [[raw|]|];
    try (intros Hp; by apply not_pending_reject in Hp).
  destruct (InteractionFactory_from raw) as [i|] eqn:Hf.
  - apply emit_keeps_invariant.
    intros _. destruct (factory_fresh raw i Hf) as (_&_&Hr&Ht&_).
    unfold in_flight; simpl. rewrite Hs.
    split; [| reflexivity].
    eexists. split; [reflexivity |]. simpl. auto.
  - destruct (bool_decide _);
      [intros Hp; by apply not_pending_resolve in Hp |].
    destruct (debug _ _) as [[e|u] w1]; intros Hp;
      [by apply not_pending_reject in Hp | by apply not_pending_resolve in Hp].
Qed.

(** The same for the signalled handler: the signal, when one was passed,
    is listened to. *)
Lemma signalled_request_invariant (body : Signalled.Body) (w : World) :
  pending_in_flight ResolvePayload (bool_decide (is_Some (signal w)))
    (Signalled.processRequest body w).
Proof.
  unfold Signalled.processRequest.
  destruct (signal w ≫= aborted) as [reason|] eqn:Hab;
    [intros Hp; by apply not_pending_reject in Hp |].
  set (w1 := match body with
             | Signalled.Text s => log (Parsed (Some s)) w
             | Signalled.Object _ => w
             end).
  assert (Hs1 : signal w1 = signal w).
  { subst w1. destruct body; simpl; auto. }
  destruct (tryAndValue _) as [[raw|]|];
    try (intros Hp; by apply not_pending_reject in Hp).
  destruct (InteractionFactory_from raw) as [i|] eqn:Hf.
  - apply emit_keeps_invariant.
    intros _. destruct (factory_fresh raw i Hf) as (_&_&Hr&Ht&_).
    unfold in_flight, Signalled.addEventListener; simpl. rewrite Hs1.
    destruct (signal w) as [s|] eqn:Hs; simpl in *.
    + split.
      * eexists. split; [reflexivity |]. simpl. auto.
      * split; [first [reflexivity | by apply bool_decide_eq_true_2] | auto].
    + split.
      * eexists. split; [reflexivity |]. simpl. auto.
      * by rewrite Hs1.
  - destruct (bool_decide (raw_type raw = _)); intros Hp;
      [by apply not_pending_resolve in Hp | by apply not_pending_reject in Hp].
Qed.

(** While the promise of a request is pending, the next answer of a
    subscriber settles it with that answer, for good, unless the callback
    throws on it; then the answer changes nothing but the trace. *)
Lemma first_answer_wins (cb : Callback) (hs : bool)
    (w0 : World) (es1 es2 : list Event) (p : APIInteractionResponse) :
  resolving cb = true -> pending_in_flight cb hs w0 ->
  response (run es1 w0) = Pending ->
  match answer_throws (this_options w0) p with
  | None =>
      response (run (es1 ++ Respond p :: es2) w0)
      = Done (Fulfilled (reply_of cb p))
  | Some _ =>
      response (run (es1 ++ [Respond p]) w0) = Pending
      /\ interaction (run (es1 ++ [Respond p]) w0) = interaction (run es1 w0)
  end.
Proof.
  intros Hcb Hinv Hp.
  pose proof (run_keeps_invariant cb hs es1 w0 Hinv Hp) as Hfl.
  rewrite !run_app.
  change (run (Respond p :: es2) (run es1 w0))
    with (run es2 (InteractionObject.respond p (run es1 w0))).
  change (run [Respond p] (run es1 w0))
    with (InteractionObject.respond p (run es1 w0)).
  rewrite <- (options_run es1 w0).
  destruct (answer_throws (this_options (run es1 w0)) p) as [e|] eqn:Ht.
  - pose proof (respond_throws cb hs p _ e Hcb Hfl Ht) as Hl.
    split; [by rewrite (logged_response _ _ Hl) | by apply logged_interaction].
  - destruct (respond_in_flight cb hs p (run es1 w0) Hcb Hp Hfl Ht) as (Ho & _).
    injection Ho as Hr _.
    pose proof (outcome_run es2 _ _ Hr) as Ho2.
    unfold outcome in Ho2. congruence.
Qed.

(** C2: once the promise of a request has settled, whether through the
    subscriber's callback, the timeout alarm, its deferral or a rejection,
    no later event changes its value or the time it settled at; an
    Interaction that has responded or timed out keeps its flags; and while
    the promise is pending, the first answer of a subscriber is the value
    it keeps, in the verifying handler and in the signalled one.  (The one
    answer that is not applied is an answer on which the callback throws
    before it gets to [resolve], because [JSON.stringify] or the debug
    function throws: that attempt resolves nothing and leaves the promise
    pending and the Interaction as it was.) *)
Theorem single_resolution :
  (forall (w : World) (s : Settled Reply) (es : list Event),
      response w = Done s -> outcome (run es w) = outcome w)
  /\ (forall (w : World) (i : Interaction) (es : list Event),
        interaction w = Some i -> responded i || timeout i = true ->
        exists i', interaction (run es w) = Some i'
                   /\ responded i' = responded i /\ timeout i' = timeout i)
  /\ (forall req opts k l now es1 p es2,
        response (run es1 (Verifying.processRequest req (start opts k l now None)))
        = Pending ->
        match answer_throws opts p with
        | None =>
            response (run (es1 ++ Respond p :: es2)
                        (Verifying.processRequest req (start opts k l now None)))
            = Done (Fulfilled (Transport (toResponse (ApiResponse p) None)))
        | Some _ =>
            response (run (es1 ++ [Respond p])
                        (Verifying.processRequest req (start opts k l now None)))
            = Pending
            /\ interaction (run (es1 ++ [Respond p])
                              (Verifying.processRequest req (start opts k l now None)))
               = interaction (run es1 (Verifying.processRequest req
                                         (start opts k l now None)))
        end)
  /\ (forall body opts l now sg es1 p es2,
        response (run es1 (Signalled.processRequest body (start opts None l now sg)))
        = Pending ->
        match answer_throws opts p with
        | None =>
            response (run (es1 ++ Respond p :: es2)
                        (Signalled.processRequest body (start opts None l now sg)))
            = Done (Fulfilled (Payload p))
        | Some _ =>
            response (run (es1 ++ [Respond p])
                        (Signalled.processRequest body (start opts None l now sg)))
            = Pending
            /\ interaction (run (es1 ++ [Respond p])
                              (Signalled.processRequest body (start opts None l now sg)))
               = interaction (run es1 (Signalled.processRequest body
                                         (start opts None l now sg)))
        end).
Proof.
  split; [| split; [| split]].
  - intros w s es H. by apply outcome_run with s.
  - intros w i es Hi Hfl. by apply run_flags.
  - intros req opts k l now es1 p es2 Hp.
    pose proof (first_answer_wins ResolveTransport false _ es1 es2 p eq_refl
                  (verifying_request_invariant req (start opts k l now None) eq_refl)
                  Hp) as H.
    destruct (verifying_processRequest_env req (start opts k l now None))
      as (Ho & _).
    rewrite Ho in H. exact H.
  - intros body opts l now sg es1 p es2 Hp.
    pose proof (first_answer_wins ResolvePayload _ _ es1 es2 p eq_refl
                  (signalled_request_invariant body (start opts None l now sg))
                  Hp) as H.
    rewrite signalled_processRequest_options in H. exact H.
Qed.

End Requests.

(** ** Verification in [handleRequest] *)


Section Verification.

Context {host : Host}.








(** C7: a raw request that [ToRequest] cannot adapt makes [handleRequest]
    reject with the adapter's error: the call to [ToRequest] stands outside
    every handler of the method, so no response is produced. *)
Theorem adapter_failure_escapes (req : RawRequest) (e : Exn)
    (later : list Event) (w : World) :
  ToRequest req = Threw e ->
  Verifying.handleRequest req later w = (Verifying.Rejects e, w).
Proof. intros H. unfold Verifying.handleRequest. by rewrite H. Qed.

End Verification.

(** ** Time and the alarm *)





Lemma timer_run_none (es : list Event) (w : World) :
  timer w = None -> timer (run es w) = None.
Proof.
  revert w. induction es as [|e es IH]; intros w Ht; [exact Ht |].
  change (run (e :: es) w) with (run es (step e w)).
  apply IH. destruct (step_env e w) as (_ & _ & [H | [H _]]); congruence.
Qed.

(** ** A request of the verifying handler that creates an Interaction *)







Section Timeouts.

Context {host : Host}.



End Timeouts.

Section Alarm.

Context {host : Host}.


End Alarm.

(** ** Ping *)

Section Ping.

Context {host : Host}.

(** C3, as the code has it: a body that reads as a Ping makes
    [processRequest] of the verifying handler resolve with the Pong
    response, and [processRequest] of the signalled handler resolve with
    the Pong payload unless its signal has fired before the call, in which
    case it rejects with the signal's reason.  In all three cases there is
    no Interaction afterwards and the trace holds no instantiation and no
    emit: at most the parse. *)
Theorem ping_is_answered_with_pong (raw : APIInteraction) (opts : Options)
    (k : option CryptoKey) (l : Listeners) (now : Z) :
  raw_type raw = Some InteractionType.Ping ->
  (forall req sg,
      tryAndValue (Verifying.parse_body (body req)) = Some (Some raw) ->
      let w := Verifying.processRequest req (start opts k l now sg) in
      response w = Done (Fulfilled (Transport (toResponse (ApiResponse pong) None)))
      /\ interaction w = None /\ timer w = None
      /\ trace w = [Parsed (body req)])
  /\ (forall b sg,
        reads_as b = Some (Some raw) ->
        sg ≫= aborted = None ->
        let w := Signalled.processRequest b (start opts k l now sg) in
        response w = Done (Fulfilled (Payload pong))
        /\ interaction w = None /\ timer w = None
        /\ trace w = match b with
                     | Signalled.Text s => [Parsed (Some s)]
                     | Signalled.Object _ => []
                     end)
  /\ (forall b sg reason,
        sg ≫= aborted = Some reason ->
        let w := Signalled.processRequest b (start opts k l now sg) in
        response w = Done (Rejected reason)
        /\ interaction w = None /\ timer w = None /\ trace w = []).
Proof.
  intros Hping. split; [| split].
  - intros req sg Hparse w. subst w. unfold Verifying.processRequest.
    rewrite Hparse, (factory_ping raw Hping), Hping. simpl. auto.
  - intros b sg Hread Hab w. subst w. unfold Signalled.processRequest.
    simpl. rewrite Hab. unfold reads_as in Hread.
    rewrite Hread, (factory_ping raw Hping), Hping.
    destruct b; simpl; auto.
  - intros b sg reason Hab w. subst w. unfold Signalled.processRequest.
    simpl. rewrite Hab. simpl. auto.
Qed.

End Ping.

(** ** Cancellation *)

(** An Interaction that the abort listener has closed turns every answer
    away with the error of its callback, and nothing but the trace
    changes. *)
Lemma respond_closed_by_abort (p : APIInteractionResponse) (w : World)
    (i : Interaction) :
  closed_by_abort w -> interaction w = Some i ->
  InteractionObject.respond p w
  = log (CallbackThrew (id i) (JsError "Interaction timed out (via abort)")) w.
Proof.
  intros ((i' & Hi' & Hc & Hr & Ht) & _) Hi.
  rewrite Hi in Hi'. injection Hi' as <-.
  unfold InteractionObject.respond. by rewrite Hi, Hr, Ht, Hc.
Qed.

Lemma step_closed_by_abort (e : Event) (w : World) :
  closed_by_abort w ->
  closed_by_abort (step e w) /\ interaction (step e w) = interaction w.
Proof.
  intros Hcl.
  pose proof Hcl as ((i & Hi & Hc & Hr & Ht) & Htm & (s & reason & Hs & Hab)).
  destruct e as [ms| |p|r]; simpl.
  - split; [| reflexivity]. unfold closed_by_abort; simpl. eauto 10.
  - rewrite Htm. split; [| reflexivity]. exact Hcl.
  - rewrite (respond_closed_by_abort p w i Hcl Hi).
    split; [| reflexivity]. unfold closed_by_abort; simpl. eauto 10.
  - rewrite Hs, Hab. split; [| reflexivity]. exact Hcl.
Qed.

Lemma run_closed_by_abort (es : list Event) (w : World) :
  closed_by_abort w ->
  closed_by_abort (run es w) /\ interaction (run es w) = interaction w.
Proof.
  revert w. induction es as [|e es IH]; intros w Hc; [by split |].
  change (run (e :: es) w) with (run es (step e w)).
  destruct (step_closed_by_abort e w Hc) as [Hc' Hi].
  destruct (IH _ Hc') as [Hc'' Hi']. split; [exact Hc'' | congruence].
Qed.

Section Cancellation.

Context {host : Host}.

(** [processRequest] of the signalled handler sets no timer. *)
Lemma signalled_processRequest_timer (b : Signalled.Body) (w : World) :
  timer (Signalled.processRequest b w) = timer w.
Proof.
  unfold Signalled.processRequest.
  destruct (signal w ≫= aborted) as [reason|];
    [by destruct (same_env_reject reason w) as (_&_&_&_&->&_) |].
  set (w1 := match b with
             | Signalled.Text s => log (Parsed (Some s)) w
             | Signalled.Object _ => w
             end).
  assert (Hw1 : timer w1 = timer w) by (subst w1; by destruct b).
  destruct (tryAndValue _) as [[raw|]|];
    try (match goal with |- context [reject ?e ?y] =>
           by destruct (same_env_reject e y) as (_&_&_&_&->&_) end).
  destruct (InteractionFactory_from raw) as [i|].
  - match goal with |- context [emit_interactionCreate ?y] =>
      destruct (same_env_emit y) as (_&_&_&_&->&_) end.
    unfold Signalled.addEventListener. simpl.
    by destruct (signal w1).
  - destruct (bool_decide _).
    + match goal with |- context [resolve ?a ?y] =>
        by destruct (same_env_resolve a y) as (_&_&_&_&->&_) end.
    + match goal with |- context [reject ?e ?y] =>
        by destruct (same_env_reject e y) as (_&_&_&_&->&_) end.
Qed.

(** C6, as the code has it.  With a signal that has fired before the call,
    [processRequest] of the signalled handler rejects with the signal's
    reason, creates no Interaction, and stays rejected.  With a signal
    that fires while the promise is pending, the abort listener first
    gives the Interaction the callback that throws and then rejects with
    the reason (the rejection is applied to a world in which the promise
    is still pending and the callback already replaced).  The Interaction
    is not moved to a terminal state: it is the Interaction of before with
    another callback, and its flags responded and timeout are unset
    still.  From then on no event changes the outcome or the Interaction,
    and every answer of a subscriber is turned away with the error of the
    callback, Interaction timed out (via abort). *)
Theorem cancellation (b : Signalled.Body) (opts : Options) (l : Listeners)
    (now : Z) (s : AbortSignal) :
  let w0 := Signalled.processRequest b (start opts None l now (Some s)) in
  (forall reason es,
      aborted s = Some reason ->
      response w0 = Done (Rejected reason)
      /\ interaction w0 = None
      /\ response (run es w0) = Done (Rejected reason))
  /\ (forall es1 reason,
        aborted s = None ->
        response (run es1 w0) = Pending ->
        let w1 := step (Abort reason) (run es1 w0) in
        outcome w1 = (Done (Rejected reason), Some (clock (run es1 w0)))
        /\ (exists i0,
              interaction (run es1 w0) = Some i0
              /\ interaction w1
                 = Some (InteractionObject.useCallback ThrowTimedOut i0)
              /\ responded i0 = false /\ timeout i0 = false)
        /\ (exists w', w1 = reject reason w' /\ response w' = Pending
                       /\ exists i, interaction w' = Some i
                                    /\ callback i = Some ThrowTimedOut)
        /\ forall es2,
             outcome (run es2 w1) = outcome w1
             /\ interaction (run es2 w1) = interaction w1
             /\ forall p i,
                  interaction w1 = Some i ->
                  step (Respond p) (run es2 w1)
                  = log (CallbackThrew (id i)
                           (JsError "Interaction timed out (via abort)"))
                        (run es2 w1)).
Proof.
  intros w0. split.
  - intros reason es Hab.
    assert (Hw0 : w0 = reject reason (start opts None l now (Some s))).
    { subst w0. unfold Signalled.processRequest. simpl. by rewrite Hab. }
    assert (Hr : response w0 = Done (Rejected reason)) by (by rewrite Hw0).
    split; [exact Hr |]. split; [by rewrite Hw0 |].
    pose proof (outcome_run es w0 _ Hr) as Ho. unfold outcome in Ho. congruence.
  - intros es1 reason Hab Hp w1.
    pose proof (signalled_request_invariant b (start opts None l now (Some s)))
      as Hinv.
    pose proof (run_keeps_invariant ResolvePayload _ es1 _ Hinv Hp) as Hfl.
    change (Signalled.processRequest b (start opts None l now (Some s)))
      with w0 in Hfl.
    assert (Htm : timer (run es1 w0) = None).
    { apply timer_run_none. subst w0.
      by rewrite signalled_processRequest_timer. }
    destruct Hfl as ((i & Hi & Hc & Hr & Ht) & Hsig).
    destruct (signal (run es1 w0)) as [s1|] eqn:Hs1; [| discriminate].
    destruct Hsig as (_ & Hab1 & Hls1).
    set (i1 := InteractionObject.useCallback ThrowTimedOut i).
    set (w' := with_interaction (Some i1)
                 (with_signal (Some {| aborted := Some reason; listening := true |})
                    (run es1 w0))).
    assert (Hw1 : w1 = reject reason w').
    { subst w1 w'. simpl. rewrite Hs1, Hab1, Hls1.
      unfold abortListener. simpl. by rewrite Hi. }
    assert (Hout : outcome w1 = (Done (Rejected reason), Some (clock (run es1 w0)))).
    { rewrite Hw1. by apply (reject_pending reason w'). }
    assert (Hi1 : interaction w1 = Some i1).
    { rewrite Hw1, interaction_reject. reflexivity. }
    assert (Hclosed : closed_by_abort w1).
    { destruct (same_env_reject reason w') as (_&_&_&_&Htm'&Hs').
      rewrite <- Hw1 in Htm', Hs'.
      split; [| split].
      - exists i1. rewrite Hi1. subst i1; simpl. auto.
      - rewrite Htm'. exact Htm.
      - rewrite Hs'. subst w'; simpl. eauto. }
    split; [exact Hout |]. split; [by exists i |].
    split; [exists w'; split; [exact Hw1 |]; split; [exact Hp | by exists i1] |].
    intros es2. injection Hout as Hres _.
    destruct (run_closed_by_abort es2 w1 Hclosed) as [Hcl2 Hi2].
    split; [by apply outcome_run with (Rejected reason) |].
    split; [exact Hi2 |].
    intros p i' Hi'. simpl.
    apply respond_closed_by_abort; [exact Hcl2 | congruence].
Qed.

End Cancellation.

(** * The properties at work on the sample host *)



(** A custom verification function that throws instead of returning a
    promise: [handleRequest] rejects with what it threw. *)
Example throwing_verifier_escapes :
  let broken :=
    {| call_with_request := fun _ => Threw (ForeignError 7);
       call_with_message := fun _ => Returned tt |} in
  fst (@Verifying.handleRequest sample_host (signed "command") []
         (start (<[ "verifyRequest" := VFunction broken ]> sample_options)
            None nobody 0 None))
  = Verifying.Rejects (ForeignError 7).
Proof. vm_compute. reflexivity. Qed.

(** The first of two answers is the one the promise keeps. *)
Lemma single_resolution_witness :
  response
    (run ([Elapse 10] ++ Respond answer :: [Respond pong; Elapse 5000; Alarm])
       (@Verifying.processRequest sample_host command_request
          (start sample_options None nobody 0 None)))
  = Done (Fulfilled (Transport (toResponse (ApiResponse answer) None))).
Proof.
  exact (proj1 (proj2 (proj2 (@single_resolution sample_host)))
           command_request sample_options None nobody 0 [Elapse 10] answer
           [Respond pong; Elapse 5000; Alarm] eq_refl).
Defined.





(** C3 against the claim: a Ping body handed to the signalled handler with
    a signal that has already fired.  The promise is rejected with the
    signal's reason; no Pong is produced. *)
Lemma ping_after_abort_is_rejected :
  let fired := {| aborted := Some (StringReason "Time out"); listening := false |} in
  let w := @Signalled.processRequest sample_host (Signalled.Text "ping")
             (start sample_options None nobody 0 (Some fired)) in
  @reads_as sample_host (Signalled.Text "ping")
  = Some (Some {| raw_id := "1"; raw_type := Some InteractionType.Ping;
                  raw_type_text := "1" |})
  /\ response w = Done (Rejected (StringReason "Time out"))
  /\ response w ≠ Done (Fulfilled (Payload pong)).
Proof.
  cbv zeta. split; [reflexivity |]. split; [vm_compute; reflexivity |].
  vm_compute. discriminate.
Qed.

(** Without a signal, the same Ping is answered with Pong. *)
Lemma ping_is_answered_with_pong_witness :
  response
    (@Signalled.processRequest sample_host (Signalled.Text "ping")
       (start sample_options None nobody 0 None))
  = Done (Fulfilled (Payload pong)).
Proof.
  apply (proj1 (proj2 (@ping_is_answered_with_pong sample_host
                         {| raw_id := "1"; raw_type := Some InteractionType.Ping;
                            raw_type_text := "1" |}
                         sample_options None nobody 0 eq_refl))
           (Signalled.Text "ping") None eq_refl eq_refl).
Defined.

(** A signal that fires after half a second, before anybody has answered. *)
Lemma cancellation_witness :
  let quiet := {| aborted := None; listening := false |} in
  let w0 := @Signalled.processRequest sample_host (Signalled.Text "command")
              (start sample_options None nobody 0 (Some quiet)) in
  outcome (step (Abort (StringReason "Time out")) (run [Elapse 500] w0))
  = (Done (Rejected (StringReason "Time out")), Some (clock (run [Elapse 500] w0))).
Proof.
  cbv zeta.
  apply (proj2 (@cancellation sample_host (Signalled.Text "command")
                  sample_options nobody 0
                  {| aborted := None; listening := false |})
           [Elapse 500] (StringReason "Time out") eq_refl).
  vm_compute. reflexivity.
Defined.

(** C6 against the claim: the same signal, firing after half a second.
    The promise is rejected with the reason, and the Interaction is left
    with neither flag set: it has not been moved to a terminal state.  An
    answer that comes later is not passed over in silence: the callback
    throws at the subscriber. *)
Lemma abort_leaves_interaction_pending :
  let quiet := {| aborted := None; listening := false |} in
  let w0 := @Signalled.processRequest sample_host (Signalled.Text "command")
              (start sample_options None nobody 0 (Some quiet)) in
  let w1 := step (Abort (StringReason "Time out")) (run [Elapse 500] w0) in
  response w1 = Done (Rejected (StringReason "Time out"))
  /\ (exists i, interaction w1 = Some i
                /\ responded i = false /\ timeout i = false)
  /\ last (trace (step (Respond answer) w1))
     = Some (CallbackThrew "2" (JsError "Interaction timed out (via abort)")).
Proof.
  cbv zeta. split; [vm_compute; reflexivity |]. split.
  - eexists. split; [vm_compute; reflexivity |]. split; reflexivity.
  - vm_compute. reflexivity.
Qed.

(** A request that cannot be adapted: [handleRequest] rejects. *)
Lemma adapter_failure_escapes_witness :
  @Verifying.handleRequest sample_host Unadaptable []
    (start sample_options None nobody 0 None)
  = (Verifying.Rejects (JsTypeError "MalformedRequest"),
     start sample_options None nobody 0 None).
Proof.
  apply (@adapter_failure_escapes sample_host Unadaptable). reflexivity.
Defined.

(** An unanswered autocomplete interaction is not deferred, although
    deferOnTimeout is on: the alarm answers with TimedOut and 504. *)
Example autocomplete_times_out :
  outcome
    (run [Elapse 3000; Alarm]
       (@Verifying.processRequest sample_host
          {| headers := ∅; body := Some "autocomplete" |}
          (start sample_options None nobody 0 None)))
  = (Done (Fulfilled (Transport (toResponse (ErrorMessage TimedOut) (Some 504)))),
     Some 3000).
Proof. vm_compute. reflexivity. Qed.

(** The alarm does not run early: at 2999 the promise is still pending. *)
Example alarm_waits :
  response
    (run [Elapse 2999; Alarm]
       (@Verifying.processRequest sample_host command_request
          (start sample_options None nobody 0 None)))
  = Pending.
Proof. vm_compute. reflexivity. Qed.

(** A replyTimeout given as the string of the number is the same delay. *)
Example string_timeout_is_converted :
  timer
    (@Verifying.processRequest sample_host command_request
       (start (<[ "replyTimeout" := VStr "3000" ]> sample_options)
          None nobody 0 None))
  = Some 3000.
Proof. vm_compute. reflexivity. Qed.

(** An answer to an unanswered command comes too late once the alarm has
    run: it is refused, and the outcome is the one of the alarm. *)
Example late_answer_is_refused :
  response
    (run [Elapse 3000; Alarm; Respond answer]
       (@Verifying.processRequest sample_host command_request
          (start sample_options None nobody 0 None)))
  = Done (Fulfilled
            (Transport (toResponse (ApiResponse InteractionObject.deferred) None))).
Proof. vm_compute. reflexivity. Qed.

(** * Further properties of the code *)

(** ** The REST client: URLs, headers, results *)

Lemma length_append (r s : string) :
  String.length (r +:+ s) = (String.length r + String.length s)%nat.
Proof. induction r as [|a r IH]; simpl; [reflexivity | by rewrite IH]. Qed.

Lemma substring_append_skip (r s : string) (k : nat) :
  String.substring (String.length r) k (r +:+ s) = String.substring 0 k s.
Proof. induction r as [|a r IH]; simpl; [reflexivity | exact IH]. Qed.

Lemma substring_append_take (r s : string) :
  String.substring 0 (String.length r) (r +:+ s) = r.
Proof.
  induction r as [|a r IH]; simpl; [by destruct s | by rewrite IH].
Qed.

Lemma endsWith_slash (r : string) : REST.endsWith (r +:+ "/") "/" = true.
Proof.
  unfold REST.endsWith. rewrite length_append.
  change (String.length "/") with 1%nat.
  replace (String.length r + 1 - 1)%nat with (String.length r) by lia.
  rewrite substring_append_skip.
  replace (String.length r + 1)%nat with (S (String.length r)) by lia.
  reflexivity.
Qed.

Lemma slash_not_empty (r : string) : String.eqb (r +:+ "/") "" = false.
Proof. by destruct r. Qed.

Lemma constructor_strips_slash (api : string) (t p : option string) (r : string) :
  REST.rootUrl
    (REST.constructor api
       {| REST.token := t; REST.authPrefix_opt := p;
          REST.rootUrl_opt := Some (r +:+ "/") |}) = r.
Proof.
  unfold REST.constructor. simpl.
  rewrite slash_not_empty, endsWith_slash, length_append.
  change (String.length "/") with 1%nat.
  replace (String.length r + 1 - 1)%nat with (String.length r) by lia.
  apply substring_append_take.
Qed.

Lemma startsWith_append (p s : string) : REST.startsWith (p +:+ s) p = true.
Proof.
  unfold REST.startsWith. induction p as [|a p IH]; simpl; [by destruct s |].
  by destruct (ascii_dec a a).
Qed.

Lemma startsWith_https (rest : string) :
  REST.startsWith ("https://" +:+ rest) "/" = false.
Proof. reflexivity. Qed.

Lemma startsWith_http (rest : string) :
  REST.startsWith ("http://" +:+ rest) "/" = false
  /\ REST.startsWith ("http://" +:+ rest) "https://" = false.
Proof. split; reflexivity. Qed.

Section Urls.

Variable URLSearchParams_toString : list (string * string) -> string.

(** X1: a root URL given with one trailing slash loses it in the
    constructor, so a path that starts with a slash is joined to it with
    exactly one slash, the same URL as for the root given without the
    trailing slash. *)
Theorem root_slash_is_not_doubled (api : string) (t p : option string)
    (r path : string) :
  REST.getUrl URLSearchParams_toString
    (REST.constructor api
       {| REST.token := t; REST.authPrefix_opt := p;
          REST.rootUrl_opt := Some (r +:+ "/") |})
    ("/" +:+ path) None
  = r +:+ "/" +:+ path
  /\ (r <> "" -> REST.endsWith r "/" = false ->
      REST.getUrl URLSearchParams_toString
        (REST.constructor api
           {| REST.token := t; REST.authPrefix_opt := p;
              REST.rootUrl_opt := Some r |})
        ("/" +:+ path) None
      = r +:+ "/" +:+ path).
Proof.
  split.
  - unfold REST.getUrl. by rewrite constructor_strips_slash, (startsWith_append "/").
  - intros Hne Hend. unfold REST.getUrl. rewrite (startsWith_append "/").
    unfold REST.constructor. simpl. rewrite Hend.
    by destruct (String.eqb_spec r "").
Qed.

(** X2: a path that is itself an http or https URL is requested as it
    is, whatever the root URL of the client; query parameters are appended
    after a question mark. *)
Theorem absolute_url_is_kept (this : REST.Rest) (rest : string)
    (q : list (string * string)) :
  REST.getUrl URLSearchParams_toString this ("https://" +:+ rest) None
  = "https://" +:+ rest
  /\ REST.getUrl URLSearchParams_toString this ("http://" +:+ rest) None
     = "http://" +:+ rest
  /\ REST.getUrl URLSearchParams_toString this ("https://" +:+ rest) (Some q)
     = "https://" +:+ rest +:+ "?" +:+ URLSearchParams_toString q.
Proof.
  pose proof (startsWith_https rest) as H1.
  pose proof (startsWith_append "https://" rest) as H2.
  destruct (startsWith_http rest) as (H3 & H4).
  pose proof (startsWith_append "http://" rest) as H5.
  unfold REST.getUrl. rewrite H1, H2, H3, H4, H5. simpl. auto.
Qed.

End Urls.

Section RestRequests.

Variables Json Bytes : Type.
Variable JSON_stringify : option Json -> Call (option string).
Variable URLSearchParams_toString : list (string * string) -> string.
Variable fetch : string -> REST.RequestInit -> Settled (REST.Response Json Bytes).

(** X3: for a relative path, with or without a leading slash, [getUrl]
    builds the same URL. *)
Theorem leading_slash_is_optional (this : REST.Rest) (path : string)
    (q : option (list (string * string))) :
  REST.startsWith path "/" = false ->
  REST.startsWith path "https://" = false ->
  REST.startsWith path "http://" = false ->
  REST.getUrl URLSearchParams_toString this path q
  = REST.getUrl URLSearchParams_toString this ("/" +:+ path) q.
Proof.
  intros H1 H2 H3. unfold REST.getUrl.
  rewrite H1, H2, H3, (startsWith_append "/"). simpl.
  destruct q; reflexivity.
Qed.

Lemma issued_headers (this : REST.Rest) (m path : string)
    (opts : option (REST.RESTCommonOptions Json)) (text : option string)
    (k : string) :
  REST.init_headers
    (snd (REST.issued Json URLSearchParams_toString this m path opts text)) !! k
  = match (opts ≫= REST.headers) ≫= (fun h => h !! k) with
    | Some v => Some v
    | None =>
        if decide (k = "User-Agent") then Some REST.UserAgent
        else if decide (k = "Authorization") then Some (REST.authHeader this)
        else if decide (k = "Content-Type") then Some "application/json"
        else None
    end.
Proof.
  unfold REST.issued. simpl. rewrite lookup_union.
  destruct (opts ≫= REST.headers) as [h|]; simpl.
  - destruct (h !! k) as [v|] eqn:Hk; simpl.
    + by destruct (<["User-Agent":=REST.UserAgent]> _ !! k).
    + rewrite (left_id None _).
      rewrite !lookup_insert, lookup_empty.
      repeat case_decide; congruence.
  - rewrite lookup_empty, (left_id None _).
    rewrite !lookup_insert, lookup_empty.
    repeat case_decide; congruence.
Qed.

(** X4: the headers of a request are the caller's own, and for every
    name the caller does not give, the client's User-Agent, Authorization
    and Content-Type; a header of the caller replaces the client's. *)
Theorem caller_headers_win (this : REST.Rest) (m path : string)
    (opts : option (REST.RESTCommonOptions Json)) (text : option string)
    (k : string) :
  REST.init_headers
    (snd (REST.issued Json URLSearchParams_toString this m path opts text)) !! k
  = match (opts ≫= REST.headers) ≫= (fun h => h !! k) with
    | Some v => Some v
    | None =>
        if decide (k = "User-Agent") then Some REST.UserAgent
        else if decide (k = "Authorization") then Some (REST.authHeader this)
        else if decide (k = "Content-Type") then Some "application/json"
        else None
    end.
Proof. apply issued_headers. Qed.

(** X5: [setToken] throws on the empty token; any other token is stored,
    the root URL is kept, and every request issued afterwards carries the
    prefix and the new token as its Authorization header unless the caller
    passes an Authorization header of its own. *)
Theorem token_reaches_requests (this : REST.Rest) (token m path : string)
    (opts : option (REST.RESTCommonOptions Json)) (text : option string) :
  (token = "" -> exists e, REST.setToken token this = Threw e)
  /\ (token <> "" ->
      exists this',
        REST.setToken token this = Returned this'
        /\ REST.rootUrl this' = REST.rootUrl this
        /\ ((opts ≫= REST.headers) ≫= (fun h => h !! "Authorization") = None ->
            REST.init_headers
              (snd (REST.issued Json URLSearchParams_toString
                      this' m path opts text)) !! "Authorization"
            = Some (REST.authPrefix this +:+ " " +:+ token))).
Proof.
  split.
  - intros ->. eexists. reflexivity.
  - intros Hne. unfold REST.setToken.
    destruct (String.eqb_spec token ""); [contradiction |].
    eexists. split; [reflexivity |]. split; [reflexivity |].
    intros Hh. rewrite issued_headers, Hh. reflexivity.
Qed.


End RestRequests.

(** ** The verifying handler from end to end *)

Section KeyCache.

Context {host : Host}.

(** X7: the key cache of [verifyRequest]: with a cached key the call
    leaves the handler as it is; without one, the key is imported from the
    publicKey option and cached, whatever the request holds, and a failed
    import rejects the verification and caches nothing. *)
Theorem verifyRequest_key_cache (req : IRequest) (w : World) :
  (forall k, this_publicKey w = Some k ->
     snd (Verifying.verifyRequest req w) = w)
  /\ (forall hex k,
        this_publicKey w = None ->
        getprop (this_options w) "publicKey" = VStr hex ->
        importKey hex = Fulfilled k ->
        snd (Verifying.verifyRequest req w) = with_publicKey (Some k) w)
  /\ (forall hex e,
        this_publicKey w = None ->
        getprop (this_options w) "publicKey" = VStr hex ->
        importKey hex = Rejected e ->
        Verifying.verifyRequest req w = (Rejected e, w)).
Proof.
  unfold Verifying.verifyRequest. split; [| split].
  - intros k ->. destruct (_ || _); [reflexivity |].
    by destruct (subtle_verify _ _ _).
  - intros hex k -> -> ->. destruct (_ || _); [reflexivity |].
    by destruct (subtle_verify _ _ _).
  - by intros hex e -> -> ->.
Qed.


End KeyCache.







Section EndToEnd.

Context {host : Host}.



End EndToEnd.

Section Answers.

Context {host : Host}.




End Answers.

(** ** Debugging does not interfere *)

Lemma alike_refl (w : World) : alike w w.
Proof. unfold alike; auto 10. Qed.

Lemma alike_sym (w w' : World) : alike w w' -> alike w' w.
Proof. unfold alike. intros (?&?&?&?&?&?&?&?&?&?). auto 20. Qed.

Lemma alike_trans (w1 w2 w3 : World) : alike w1 w2 -> alike w2 w3 -> alike w1 w3.
Proof.
  unfold alike. intros (?&Ht&?&?&?&?&?&?&?&?) (?&Ht'&?&?&?&?&?&?&?&?).
  repeat split; try congruence.
Qed.

Lemma alike_getprop (w w' : World) (k : string) :
  alike w w' -> k <> "debug" ->
  getprop (this_options w) k = getprop (this_options w') k.
Proof.
  intros (Ho & _) Hk. unfold getprop.
  rewrite <- (lookup_delete_ne (this_options w) "debug" k) by congruence.
  rewrite <- (lookup_delete_ne (this_options w') "debug" k) by congruence.
  by rewrite Ho.
Qed.

(** A world that differs from another in its trace only is like it. *)
Lemma alike_logged (w w' : World) : logged w w' -> alike w w'.
Proof.
  intros ((Ho&?&?&?&?&?) & Hout & ?). unfold outcome in Hout.
  injection Hout as ? ?.
  unfold alike. rewrite Ho. repeat split; congruence.
Qed.

Lemma alike_log (e : Effect) (w : World) : alike w (log e w).
Proof. apply alike_logged, logged_log. Qed.

Lemma alike_logs (e e' : Effect) (w w' : World) :
  alike w w' -> alike (log e w) (log e' w').
Proof.
  intros H. eapply alike_trans; [apply alike_sym, alike_log |].
  eapply alike_trans; [exact H | apply alike_log].
Qed.

(** On two worlds that are alike, [debug] throws alike, and leaves them
    alike. *)
Lemma alike_debug (m : DebugMsg) (w w' : World) :
  alike w w' ->
  fst (debug m w) = fst (debug m w')
  /\ alike (snd (debug m w)) (snd (debug m w')).
Proof.
  intros H. split.
  - rewrite !debug_result. by destruct H as (_ & -> & _).
  - eapply alike_trans; [apply alike_sym, alike_logged, logged_debug |].
    eapply alike_trans; [exact H | apply alike_logged, logged_debug].
Qed.

Lemma alike_debugResolving (p : APIInteractionResponse) (w w' : World) :
  alike w w' ->
  fst (debugResolving p w) = fst (debugResolving p w')
  /\ alike (snd (debugResolving p w)) (snd (debugResolving p w')).
Proof.
  intros H. unfold debugResolving.
  destruct (stringify_throws p); [by split | by apply alike_debug].
Qed.

Lemma alike_resolve (r : Reply) (w w' : World) :
  alike w w' -> alike (resolve r w) (resolve r w').
Proof.
  intros H. pose proof H as H'. alike_fields H. unfold resolve.
  replace (response w') with (response w) by assumption.
  destruct (is_pending (response w)); [| exact H'].
  unfold alike; simpl. repeat split; congruence.
Qed.

Lemma alike_reject (e : Exn) (w w' : World) :
  alike w w' -> alike (reject e w) (reject e w').
Proof.
  intros H. pose proof H as H'. alike_fields H. unfold reject.
  replace (response w') with (response w) by assumption.
  destruct (is_pending (response w)); [| exact H'].
  unfold alike; simpl. repeat split; congruence.
Qed.

Lemma alike_with_interaction (i : option Interaction) (w w' : World) :
  alike w w' -> alike (with_interaction i w) (with_interaction i w').
Proof. intros H. alike_fields H. unfold alike; simpl. auto 20. Qed.

Lemma alike_with_timer (t : option Z) (w w' : World) :
  alike w w' -> alike (with_timer t w) (with_timer t w').
Proof. intros H. alike_fields H. unfold alike; simpl. auto 20. Qed.

Lemma alike_with_signal (s : option AbortSignal) (w w' : World) :
  alike w w' -> alike (with_signal s w) (with_signal s w').
Proof. intros H. alike_fields H. unfold alike; simpl. auto 20. Qed.

Lemma alike_with_clock (t : Z) (w w' : World) :
  alike w w' -> alike (with_clock t w) (with_clock t w').
Proof. intros H. alike_fields H. unfold alike; simpl. auto 20. Qed.

Lemma alike_with_publicKey (k : option CryptoKey) (w w' : World) :
  alike w w' -> alike (with_publicKey k w) (with_publicKey k w').
Proof. intros H. alike_fields H. unfold alike; simpl. auto 20. Qed.

Lemma alike_invoke (cb : option Callback) (p : APIInteractionResponse)
    (w w' : World) :
  alike w w' ->
  fst (invoke cb p w) = fst (invoke cb p w')
  /\ alike (snd (invoke cb p w)) (snd (invoke cb p w')).
Proof.
  intros H. destruct (alike_debugResolving p w w' H) as [Hf Hs].
  destruct cb as [[]|]; simpl; unfold resolveTransport, resolvePayload;
    try (by split);
    destruct (debugResolving p w) as [[e|u] w1],
      (debugResolving p w') as [[e'|u'] w1']; simpl in *;
    try discriminate; (split; [congruence |]); auto;
    by apply alike_resolve.
Qed.

Lemma alike_respond (p : APIInteractionResponse) (w w' : World) :
  alike w w' ->
  alike (InteractionObject.respond p w) (InteractionObject.respond p w').
Proof.
  intros H. pose proof H as H'. alike_fields H.
  unfold InteractionObject.respond.
  replace (interaction w') with (interaction w) by assumption.
  destruct (interaction w) as [i|]; [| exact H'].
  destruct (responded i || timeout i); [by apply alike_logs |].
  destruct (alike_invoke (callback i) p w w' H') as [Hf Hs].
  destruct (invoke (callback i) p w) as [c1 w1],
    (invoke (callback i) p w') as [c2 w2]; simpl in *. subst c2.
  destruct c1; [by apply alike_logs | by apply alike_with_interaction].
Qed.

Lemma alike_timeoutAlarm (w w' : World) :
  alike w w' -> alike (timeoutAlarm w) (timeoutAlarm w').
Proof.
  intros H. pose proof H as H'. alike_fields H. unfold timeoutAlarm.
  replace (interaction w') with (interaction w) by assumption.
  destruct (interaction w) as [i|]; [| exact H'].
  destruct (negb (responded i)); [| exact H'].
  destruct (alike_debug (TimedOutId (id i)) w w' H') as [Hf1 Hs1].
  destruct (debug (TimedOutId (id i)) w) as [[e|u] w1],
    (debug (TimedOutId (id i)) w') as [[e'|u'] w1']; simpl in *;
    try discriminate.
  { injection Hf1 as <-. by apply alike_logs. }
  rewrite <- (alike_getprop w1 w1' "deferOnTimeout" Hs1) by discriminate.
  destruct (truthy _ && _).
  - destruct (alike_debug (AutoDeferred (id i)) w1 w1' Hs1) as [Hf2 Hs2].
    destruct (debug (AutoDeferred (id i)) w1) as [[e|u2] w2],
      (debug (AutoDeferred (id i)) w1') as [[e'|u2'] w2']; simpl in *;
      try discriminate.
    + injection Hf2 as <-. by apply alike_logs.
    + unfold InteractionObject.deferResponse. by apply alike_respond.
  - by apply alike_resolve, alike_with_interaction.
Qed.

Lemma alike_abortListener (w w' : World) :
  alike w w' -> alike (abortListener w) (abortListener w').
Proof.
  intros H. pose proof H as H'. alike_fields H. unfold abortListener.
  replace (interaction w') with (interaction w) by assumption.
  replace (signal w') with (signal w) by assumption.
  destruct (interaction w) as [i|]; [| exact H'].
  destruct (signal w ≫= aborted); [| exact H'].
  by apply alike_reject, alike_with_interaction.
Qed.

Lemma alike_step (e : Event) (w w' : World) :
  alike w w' -> alike (step e w) (step e w').
Proof.
  intros H. pose proof H as H'. alike_fields H.
  destruct e as [ms| |p|reason]; simpl.
  - replace (clock w') with (clock w) by assumption. by apply alike_with_clock.
  - replace (timer w') with (timer w) by assumption.
    replace (clock w') with (clock w) by assumption.
    destruct (timer w) as [due|]; [| exact H'].
    destruct (Z.leb due (clock w)); [| exact H'].
    by apply alike_timeoutAlarm, alike_logs, alike_with_timer.
  - by apply alike_respond.
  - replace (signal w') with (signal w) by assumption.
    destruct (signal w) as [s|]; [| exact H'].
    destruct (aborted s); [exact H' |].
    destruct (listening s).
    + by apply alike_abortListener, alike_with_signal.
    + by apply alike_with_signal.
Qed.

Lemma alike_run (es : list Event) (w w' : World) :
  alike w w' -> alike (run es w) (run es w').
Proof.
  revert w w'. induction es as [|e es IH]; intros w w' H; [exact H |].
  change (alike (run es (step e w)) (run es (step e w'))).
  by apply IH, alike_step.
Qed.

Lemma alike_emit (w w' : World) :
  alike w w' -> alike (emit_interactionCreate w) (emit_interactionCreate w').
Proof.
  intros H. rewrite !emit_as_run.
  replace (listeners w') with (listeners w) by (by destruct H as (_&_&_&?&_)).
  by apply alike_run, alike_logs.
Qed.

Section Noninterference.

Context {host : Host}.

Lemma alike_verifying_processRequest (req : IRequest) (w w' : World) :
  alike w w' ->
  alike (Verifying.processRequest req w) (Verifying.processRequest req w').
Proof.
  intros H. unfold Verifying.processRequest.
  destruct (tryAndValue _) as [[raw|]|];
    try by apply alike_reject, alike_logs.
  destruct (InteractionFactory_from raw) as [i|].
  - apply alike_emit. unfold setTimeout. simpl.
    rewrite <- (alike_getprop w w' "replyTimeout" H) by discriminate.
    replace (clock w') with (clock w) by (by destruct H as (_&_&_&_&?&_)).
    by apply alike_logs, alike_with_timer, alike_with_interaction,
      alike_logs, alike_logs.
  - destruct (bool_decide _); [by apply alike_resolve, alike_logs |].
    destruct (alike_debug (UnsupportedType (raw_type_text raw))
                (log (Parsed (body req)) w) (log (Parsed (body req)) w'))
      as [Hf Hs]; [by apply alike_logs |].
    destruct (debug _ (log (Parsed (body req)) w)) as [[e|u] w1],
      (debug _ (log (Parsed (body req)) w')) as [[e'|u'] w1']; simpl in *;
      try discriminate.
    + injection Hf as <-. by apply alike_reject.
    + by apply alike_resolve.
Qed.

Lemma alike_addEventListener (w w' : World) :
  alike w w' ->
  alike (Signalled.addEventListener w) (Signalled.addEventListener w').
Proof.
  intros H. pose proof H as H'. alike_fields H.
  unfold Signalled.addEventListener.
  replace (signal w') with (signal w) by assumption.
  destruct (signal w); [by apply alike_with_signal | exact H'].
Qed.

Lemma alike_signalled_processRequest (b : Signalled.Body) (w w' : World) :
  alike w w' ->
  alike (Signalled.processRequest b w) (Signalled.processRequest b w').
Proof.
  intros H. unfold Signalled.processRequest.
  replace (signal w') with (signal w) by (by destruct H as (_&_&_&_&_&_&_&_&?&_)).
  destruct (signal w ≫= aborted) as [reason|] eqn:Hab;
    [by apply alike_reject |].
  assert (H1 : alike
                 (match b with
                  | Signalled.Text s => log (Parsed (Some s)) w
                  | Signalled.Object _ => w
                  end)
                 (match b with
                  | Signalled.Text s => log (Parsed (Some s)) w'
                  | Signalled.Object _ => w'
                  end)).
  { destruct b; [by apply alike_logs | exact H]. }
  revert H1. generalize (match b with
                         | Signalled.Text s => log (Parsed (Some s)) w
                         | Signalled.Object _ => w
                         end).
  generalize (match b with
              | Signalled.Text s => log (Parsed (Some s)) w'
              | Signalled.Object _ => w'
              end).
  intros y x H1.
  destruct (tryAndValue _) as [[raw|]|]; try by apply alike_reject.
  destruct (InteractionFactory_from raw) as [i|].
  - by apply alike_emit, alike_addEventListener, alike_with_interaction,
      alike_logs.
  - destruct (bool_decide _); [by apply alike_resolve | by apply alike_reject].
Qed.

End Noninterference.

Section NoninterferenceOfDebug.

Context {host : Host}.

Lemma alike_verifyRequest (req : IRequest) (w w' : World) :
  alike w w' ->
  fst (Verifying.verifyRequest req w) = fst (Verifying.verifyRequest req w')
  /\ alike (snd (Verifying.verifyRequest req w))
           (snd (Verifying.verifyRequest req w')).
Proof.
  intros H. unfold Verifying.verifyRequest.
  replace (this_publicKey w') with (this_publicKey w)
    by (by destruct H as (_&_&?&_)).
  rewrite <- (alike_getprop w w' "publicKey" H) by discriminate.
  destruct (this_publicKey w) as [k|].
  - destruct (_ || _); [by split |].
    destruct (subtle_verify _ _ _); by split.
  - destruct (getprop (this_options w) "publicKey") as [| | | |hex| | |];
      try by split.
    destruct (importKey hex) as [k|e]; [| by split].
    destruct (_ || _); [split; [reflexivity | by apply alike_with_publicKey] |].
    destruct (subtle_verify _ _ _);
      (split; [reflexivity | by apply alike_with_publicKey]).
Qed.

Lemma alike_verifyFn (req : IRequest) (w w' : World) :
  alike w w' ->
  fst (Verifying.verifyFn req w) = fst (Verifying.verifyFn req w')
  /\ alike (snd (Verifying.verifyFn req w)) (snd (Verifying.verifyFn req w')).
Proof.
  intros H. unfold Verifying.verifyFn.
  rewrite <- (alike_getprop w w' "verifyRequest" H) by discriminate.
  destruct (getprop (this_options w) "verifyRequest");
    try (destruct (alike_verifyRequest req w w' H) as [Hf Hs];
         destruct (Verifying.verifyRequest req w) as [v w1],
           (Verifying.verifyRequest req w') as [v' w1'];
         simpl in *; subst v'; by split).
Qed.

Lemma alike_requestVerified (req : IRequest) (w w' : World) :
  alike w w' ->
  fst (Verifying.requestVerified req w) = fst (Verifying.requestVerified req w')
  /\ alike (snd (Verifying.requestVerified req w))
           (snd (Verifying.requestVerified req w')).
Proof.
  intros H. unfold Verifying.requestVerified.
  destruct (alike_verifyFn req w w' H) as [Hf Hs].
  destruct (Verifying.verifyFn req w) as [c w1],
    (Verifying.verifyFn req w') as [c' w1']; simpl in *. subst c'.
  destruct c as [e|[[b|vErr]|]]; try by split.
  destruct (alike_debug (VerifyingFailed vErr) w1 w1' Hs) as [Hf2 Hs2].
  destruct (debug (VerifyingFailed vErr) w1) as [[e|u] w2],
    (debug (VerifyingFailed vErr) w1') as [[e'|u'] w2']; simpl in *;
    try discriminate; (split; [congruence | assumption]).
Qed.

Lemma alike_handleRequest (req : RawRequest) (later : list Event)
    (w w' : World) :
  alike w w' ->
  fst (Verifying.handleRequest req later w)
  = fst (Verifying.handleRequest req later w')
  /\ alike (snd (Verifying.handleRequest req later w))
           (snd (Verifying.handleRequest req later w')).
Proof.
  intros H. unfold Verifying.handleRequest.
  destruct (ToRequest req) as [e|r]; [by split |].
  destruct (alike_requestVerified r w w' H) as [Hf Hs].
  destruct (Verifying.requestVerified r w) as [c w1],
    (Verifying.requestVerified r w') as [c' w1']; simpl in *. subst c'.
  destruct c as [e|[|]]; try by split.
  pose proof (alike_run later _ _
                (alike_verifying_processRequest r w1 w1' Hs)) as H3.
  pose proof H3 as (_&_&_&Hl&_&Hr&_). rewrite <- Hr, <- Hl.
  destruct (response _) as [|[a|pErr]]; try by split.
  destruct (onError _); [| by split].
  destruct (alike_debug (ProcessingFailed pErr) _ _
              (alike_logs (Emitted "error") (Emitted "error") _ _ H3))
    as [Hf4 Hs4].
  destruct (debug (ProcessingFailed pErr) (log (Emitted "error") (run later _)))
    as [[e|u] w4],
    (debug (ProcessingFailed pErr)
       (log (Emitted "error")
          (run later (Verifying.processRequest r w1')))) as [[e'|u'] w4'];
    simpl in *; try discriminate; [| by split].
  injection Hf4 as <-. by split.
Qed.

(** X12: the debug option matters through the trace and through what the
    debug function throws, and through nothing else.  Two configurations
    that differ in the debug option only, and whose debug options throw
    alike (as they do when neither is a function that throws), take a
    request through the same promise, Interaction, timer, signal and clock
    at every point of every run, in both handlers, and [handleRequest]
    gives the same result. *)
Theorem debug_does_not_interfere (opts : Options) (d : OptValue)
    (k : option CryptoKey) (l : Listeners) (now : Z)
    (sg : option AbortSignal) :
  (forall msg, debug_throws (<[ "debug" := d ]> opts) msg
               = debug_throws opts msg) ->
  let plain := start opts k l now sg in
  let debugging := start (<[ "debug" := d ]> opts) k l now sg in
  (forall req es,
      alike (run es (Verifying.processRequest req plain))
            (run es (Verifying.processRequest req debugging)))
  /\ (forall b es,
        alike (run es (Signalled.processRequest b plain))
              (run es (Signalled.processRequest b debugging)))
  /\ (forall req later,
        fst (Verifying.handleRequest req later plain)
        = fst (Verifying.handleRequest req later debugging)).
Proof.
  intros Hthrows plain debugging.
  assert (H : alike plain debugging).
  { subst plain debugging. unfold alike; simpl.
    rewrite delete_insert_eq. repeat split; auto. }
  split; [| split].
  - intros req es. by apply alike_run, alike_verifying_processRequest.
  - intros b es. by apply alike_run, alike_signalled_processRequest.
  - intros req later. by apply alike_handleRequest.
Qed.

End NoninterferenceOfDebug.

(** ** More on the constructors *)

(** X13: the constructor of the verifying handler changes no object that
    exists.  The options object of the handler it returns is a new one,
    in which every property is the user's when the user gives it and the
    default otherwise; a publicKey given as [undefined] hides the default
    key, and the constructor throws. *)
Theorem verifying_constructor_is_isolated (opts : Options) (σ : Heap) :
  (forall l, is_Some (σ !! l) ->
     snd (Verifying.constructor opts σ) !! l = σ !! l)
  /\ (forall h, fst (Verifying.constructor opts σ) = Returned h ->
        σ !! Verifying.options h = None
        /\ forall k,
             getprop (observed (snd (Verifying.constructor opts σ))
                        (Verifying.options h)) k
             = match opts !! k with
               | Some v => v
               | None => getprop (observed σ defaultOptions) k
               end)
  /\ (opts !! "publicKey" = Some VUndefined ->
      fst (Verifying.constructor opts σ)
      = Threw (DisciValidationError "Public key is required")).
Proof.
  pose proof (verifying_merged opts σ) as Hm.
  assert (Hget : forall k, getprop (opts ∪ (σ !!! defaultOptions)) k
                           = match opts !! k with
                             | Some v => v
                             | None => getprop (σ !!! defaultOptions) k
                             end).
  { intros k. unfold getprop. rewrite lookup_union.
    destruct (opts !! k) as [v|]; simpl.
    - by destruct (_ !! k).
    - by rewrite (left_id None _). }
  split; [| split].
  - intros l Hl. by apply verifying_constructor_frame.
  - intros h Hh. unfold Verifying.constructor in Hh, Hm |- *.
    destruct (negb _) eqn:Hk; [discriminate |].
    simpl in *. injection Hh as <-. simpl. split.
    + apply not_elem_of_dom. apply is_fresh.
    + intros k. unfold observed. rewrite Hm. apply Hget.
  - intros Hu. unfold Verifying.constructor in Hm |- *.
    destruct (negb _) eqn:Hk; [reflexivity |]. exfalso.
    simpl in Hm. rewrite Hm, Hget, Hu in Hk. discriminate.
Qed.

(** X14: the constructor of the signalled handler writes into the shared
    defaults and nowhere else: after two constructions the defaults hold
    the second options over the first over the original defaults.  It
    throws exactly when the rest option of the merge is [undefined] or
    [null], and a construction that throws has written its options all
    the same. *)
Theorem signalled_constructor_accumulates (api : string) (o1 o2 : Options)
    (σ : Heap) :
  let first := Signalled.constructor api o1 σ in
  let second := Signalled.constructor api o2 (snd first) in
  observed (snd first) defaultOptions = o1 ∪ observed σ defaultOptions
  /\ observed (snd second) defaultOptions
     = o2 ∪ (o1 ∪ observed σ defaultOptions)
  /\ (forall l, l <> defaultOptions -> snd second !! l = σ !! l)
  /\ ((exists e, fst first = Threw e)
      <-> (getprop (o1 ∪ observed σ defaultOptions) "rest" = VUndefined
           \/ getprop (o1 ∪ observed σ defaultOptions) "rest" = VNull)).
Proof.
  cbv zeta.
  destruct (signalled_constructor_writes_defaults api o1 σ) as [H1 _].
  destruct (signalled_constructor_writes_defaults api o2
              (snd (Signalled.constructor api o1 σ))) as [H2 _].
  split; [exact H1 |]. split; [by rewrite H2, H1 |]. split.
  - intros l Hl. rewrite !signalled_constructor_heap.
    by rewrite !Object_assign_other.
  - unfold Signalled.constructor.
    fold (observed (Object_assign defaultOptions [o1] σ) defaultOptions).
    assert (Hobs : observed (Object_assign defaultOptions [o1] σ) defaultOptions
                   = o1 ∪ observed σ defaultOptions).
    { unfold observed. by rewrite Object_assign_target. }
    rewrite Hobs.
    destruct (getprop (o1 ∪ observed σ defaultOptions) "rest"); simpl;
      split; try (intros [e He]; discriminate);
      try (intros [Hx | Hx]; discriminate);
      eauto.
Qed.

(** ** The custom verification function *)

Lemma publicKey_step (e : Event) (w : World) :
  this_publicKey (step e w) = this_publicKey w.
Proof.
  destruct e as [ms| |p|reason]; simpl.
  - reflexivity.
  - destruct (timer w) as [due|]; [| reflexivity].
    destruct (Z.leb due (clock w)); [| reflexivity].
    by destruct (same_env_timeoutAlarm (log AlarmRan (with_timer None w)))
      as (_&->&_).
  - by destruct (same_env_respond p w) as (_&->&_).
  - destruct (signal w) as [s|]; [| reflexivity].
    destruct (aborted s); [reflexivity |].
    destruct (listening s); [| reflexivity].
    match goal with |- context [abortListener ?x] =>
      by destruct (same_env_abortListener x) as (_&->&_) end.
Qed.

Lemma publicKey_run (es : list Event) (w : World) :
  this_publicKey (run es w) = this_publicKey w.
Proof.
  revert w. induction es as [|e es IH]; intros w; [reflexivity |].
  change (run (e :: es) w) with (run es (step e w)).
  by rewrite IH, publicKey_step.
Qed.

Lemma publicKey_debug (msg : DebugMsg) (w : World) :
  this_publicKey (snd (debug msg w)) = this_publicKey w.
Proof. by destruct (logged_env _ _ (logged_debug msg w)) as (_&->&_). Qed.

Section CustomVerifier.

Context {host : Host}.

Lemma processRequest_reads_body (r r' : IRequest) (w : World) :
  body r = body r' ->
  Verifying.processRequest r w = Verifying.processRequest r' w.
Proof. intros H. unfold Verifying.processRequest. by rewrite H. Qed.

(** X15: with a custom verification function, [handleRequest] never
    touches the key cache, and the headers of the request matter only
    through that function: two requests with the same body on which the
    function does the same get the same result. *)
Theorem custom_verifier_replaces_verifyRequest (later : list Event)
    (w : World) (f : JsFunction) :
  getprop (this_options w) "verifyRequest" = VFunction f ->
  (forall req,
      this_publicKey (snd (Verifying.handleRequest req later w))
      = this_publicKey w)
  /\ (forall req req' r r',
        ToRequest req = Returned r -> ToRequest req' = Returned r' ->
        body r = body r' -> call_with_request f r = call_with_request f r' ->
        fst (Verifying.handleRequest req later w)
        = fst (Verifying.handleRequest req' later w)).
Proof.
  intros Hc. split.
  - intros req. unfold Verifying.handleRequest.
    destruct (ToRequest req) as [e|r0]; [reflexivity |].
    unfold Verifying.requestVerified, Verifying.verifyFn. rewrite Hc.
    destruct (call_with_request f r0) as [e|[[[|]|vErr]|]]; simpl;
      try reflexivity.
    + set (w2 := run later (Verifying.processRequest r0 w)).
      assert (Hk : this_publicKey w2 = this_publicKey w).
      { subst w2. rewrite publicKey_run.
        by destruct (verifying_processRequest_env r0 w) as (_ & -> & _). }
      destruct (response w2) as [|[a|pErr]]; simpl; try exact Hk.
      destruct (onError _); simpl; [| exact Hk].
      pose proof (publicKey_debug (ProcessingFailed pErr)
                    (log (Emitted "error") w2)) as Hd.
      destruct (debug (ProcessingFailed pErr) (log (Emitted "error") w2))
        as [[e|u] w3]; simpl in *; congruence.
    + pose proof (publicKey_debug (VerifyingFailed vErr) w) as Hd.
      destruct (debug (VerifyingFailed vErr) w) as [[e|u] w3]; simpl in *;
        exact Hd.
  - intros req req' r r' Hr Hr' Hb Hv. unfold Verifying.handleRequest.
    rewrite Hr, Hr'.
    unfold Verifying.requestVerified, Verifying.verifyFn. rewrite Hc, <- Hv.
    destruct (call_with_request f r) as [e|[[[|]|vErr]|]]; simpl;
      try reflexivity.
    + by rewrite (processRequest_reads_body r r' w Hb).
    + by destruct (debug (VerifyingFailed vErr) w) as [[e|u] w3].
Qed.

End CustomVerifier.

(** ** The further properties on the sample host *)

Lemma root_slash_is_not_doubled_witness :
  REST.getUrl (fun _ => "")
    (REST.constructor "https://discord.com/api/v10"
       {| REST.token := None; REST.authPrefix_opt := None;
          REST.rootUrl_opt := Some "https://x.test/api" |})
    ("/" +:+ "users") None
  = "https://x.test/api" +:+ "/" +:+ "users".
Proof.
  apply (proj2 (root_slash_is_not_doubled (fun _ => "")
                  "https://discord.com/api/v10" None None
                  "https://x.test/api" "users")).
  - discriminate.
  - reflexivity.
Defined.

Lemma leading_slash_is_optional_witness :
  REST.getUrl (fun _ => "") sample_rest "users" None
  = REST.getUrl (fun _ => "") sample_rest ("/" +:+ "users") None.
Proof.
  apply (leading_slash_is_optional (fun _ => "") sample_rest "users" None);
    reflexivity.
Defined.

Lemma token_reaches_requests_witness :
  exists this',
    REST.setToken "abc" sample_rest = Returned this'
    /\ REST.init_headers
         (snd (REST.issued nat (fun _ => "")
                 this' "GET" "/users" None None)) !! "Authorization"
       = Some "Bot abc".
Proof.
  destruct (proj2 (token_reaches_requests nat (fun _ => "")
                     sample_rest "abc" "GET" "/users" None None))
    as (this' & Hset & _ & Hauth); [discriminate |].
  exists this'. split; [exact Hset |]. apply Hauth. reflexivity.
Defined.


(** A body that cannot be serialized: no request is made. *)
Example unserializable_body_is_not_sent :
  REST.makeRequest nat nat (fun _ => Threw (JsTypeError "cyclic object value"))
    (fun _ => "") not_found sample_rest "GET" "/users" None
  = (REST.RestRejected (JsTypeError "cyclic object value"), []).
Proof. reflexivity. Qed.

Lemma verifyRequest_key_cache_witness :
  snd (@Verifying.verifyRequest sample_host command_request
         (start sample_options None nobody 0 None))
  = with_publicKey (Some (ImportedKey 2)) (start sample_options None nobody 0 None).
Proof.
  apply (proj1 (proj2 (@verifyRequest_key_cache sample_host command_request
                         (start sample_options None nobody 0 None)))
           "ab" (ImportedKey 2)); reflexivity.
Defined.





(** Debugging switched on, against none: the same result. *)
Lemma debug_does_not_interfere_witness :
  fst (@Verifying.handleRequest sample_host (signed "command")
         [Elapse 3000; Alarm] (start sample_options None nobody 0 None))
  = fst (@Verifying.handleRequest sample_host (signed "command")
           [Elapse 3000; Alarm]
           (start (<[ "debug" := VBool true ]> sample_options)
              None nobody 0 None)).
Proof.
  apply (proj2 (proj2 (@debug_does_not_interfere sample_host sample_options
                         (VBool true) None nobody 0 None
                         ltac:(intros msg; reflexivity)))).
Defined.

(** A debug function that throws does interfere: the answer of the
    subscriber is lost, because the callback throws before it resolves
    the promise. *)
Example throwing_debug_loses_the_answer :
  let failing :=
    {| call_with_request := fun _ => Returned None;
       call_with_message := fun _ => Threw (ForeignError 1) |} in
  response
    (run [Respond answer]
       (@Verifying.processRequest sample_host command_request
          (start (<[ "debug" := VFunction failing ]> sample_options)
             None nobody 0 None)))
  = Pending
  /\ response
       (run [Respond answer]
          (@Verifying.processRequest sample_host command_request
             (start sample_options None nobody 0 None)))
     = Done (Fulfilled (Transport (toResponse (ApiResponse answer) None))).
Proof. cbv zeta. split; vm_compute; reflexivity. Qed.

(** A string as the rest option: the handler is built all the same, with
    the defaults of the REST client. *)
Example rest_given_as_string :
  exists h,
    fst (Signalled.constructor "api" (<[ "rest" := VStr "x" ]> ∅)
           (boot shipped_defaults))
    = Returned h
    /\ REST.rootUrl (Signalled.api h) = "api".
Proof. eexists. split; vm_compute; reflexivity. Qed.

Lemma custom_verifier_replaces_verifyRequest_witness :
  this_publicKey
    (snd (@Verifying.handleRequest sample_host
            (BodyAndHeaders "ping" ∅) []
            (start trusting_options None nobody 0 None)))
  = None.
Proof.
  apply (proj1 (@custom_verifier_replaces_verifyRequest sample_host []
                  (start trusting_options None nobody 0 None)
                  trusting eq_refl)).
Defined.
